(** * cs135 assignments: cross-validation splitter and binary metrics

    A shallow embedding of
      - [hw1/cross_validation.py]: [make_train_and_test_row_ids_for_n_fold_cv],
                                   [train_models_and_calc_scores_for_n_fold_cv]
      - [hw2/binary_metrics.py]:   [calc_TP_TN_FP_FN], [calc_ACC],
                                   [calc_TPR], [calc_PPV]
    together with the few Python and numpy operations those functions call.

    Python integers are unbounded and are modelled by [Z]; numpy integer
    arrays are modelled by [list Z].  Exceptions are an explicit result
    type.  The pseudorandom generator is an interface (a type class): the
    code only calls its constructor and its [shuffle] method.  The
    estimator that the driver trains is an interface as well ([fit] and
    [predict]); the error function it imports is a parameter.

    Python floats are IEEE-754 doubles and are modelled by the primitive
    binary64 floats, whose operations are specified by the executable
    reference implementation of [SpecFloat]. *)

From stdpp Require Import base numbers list list_numbers sorting gmap.
From Stdlib Require Import Floats.
From Stdlib Require Uint63.

Local Open Scope Z_scope.

(** ** Python: exceptions, integer division, slices *)

Module Py.

Inductive exn : Set :=
  | ZeroDivisionError
  | ValueError
  | TypeError
  | AssertionError
  | OverflowError.

Inductive result (A : Type) : Type :=
  | Ok (a : A)
  | Raise (e : exn).
Arguments Ok {A} a.
Arguments Raise {A} e.

#[export] Instance result_ret : MRet result := λ A a, Ok a.
#[export] Instance result_bind : MBind result := λ A B k r,
  match r with Ok a => k a | Raise e => Raise e end.

(** [a // b] on Python ints: floor division, which is [Z.div]. *)
Definition floordiv (a b : Z) : result Z :=
  if decide (b = 0) then Raise ZeroDivisionError else Ok (a `div` b).

(** [a % b] on Python ints: the sign follows the divisor, which is [Z.modulo]. *)
Definition mod_ (a b : Z) : result Z :=
  if decide (b = 0) then Raise ZeroDivisionError else Ok (a `mod` b).

(** Normalisation of one bound of a slice [l[start:stop]] on a sequence of
    length [len]: negative bounds count from the end, and every bound is
    clipped to [0, len]. *)
Definition slice_index (len i : Z) : Z :=
  if decide (i < 0) then Z.max 0 (len + i) else Z.min i len.

(** [l[start:stop]] *)
Definition slice {A} (l : list A) (start stop : Z) : list A :=
  let len := Z.of_nat (length l) in
  let a := slice_index len start in
  let b := slice_index len stop in
  take (Z.to_nat (b - a)) (drop (Z.to_nat a) l).

(** [l[:stop] += 1] on an integer array, in place. *)
Definition slice_prefix_incr (l : list Z) (stop : Z) : list Z :=
  let b := Z.to_nat (slice_index (Z.of_nat (length l)) stop) in
  ((λ x, x + 1) <$> take b l) ++ drop b l.

(** The double nearest to an integer (ties to even). *)
Definition to_float (z : Z) : float :=
  SF2Prim (binary_normalize prec emax z 0 false).

(** Conversion of an int operand of a float operation: an int beyond the
    range of the doubles is rejected. *)
Definition float_of_int (z : Z) : result float :=
  match binary_normalize prec emax z 0 false with
  | S754_infinity _ => Raise OverflowError
  | _ => Ok (to_float z)
  end.

(** [a + b] for an int [a] and a float [b]. *)
Definition int_add_float (a : Z) (b : float) : result float :=
  x ← float_of_int a; mret (x + b)%float.

(** [a / b] for an int [a] and a float [b]. *)
Definition int_truediv_float (a : Z) (b : float) : result float :=
  x ← float_of_int a;
  if (b =? 0)%float then Raise ZeroDivisionError else mret (x / b)%float.

End Py.

Export Py.

(** ** numpy: the array functions the two modules use *)

Module Np.

(** [np.arange(n)] *)
Definition arange (n : Z) : list Z := seqZ 0 n.

(** [np.full(n, v)]: a negative length is rejected. *)
Definition full (n v : Z) : result (list Z) :=
  if decide (n < 0) then Raise ValueError else Ok (replicate (Z.to_nat n) v).

(** [np.unique(ar)]: sort, then keep every element that differs from its
    predecessor. *)
Fixpoint keep_changes (prev : Z) (l : list Z) : list Z :=
  match l with
  | [] => []
  | y :: t => if decide (y = prev) then keep_changes y t else y :: keep_changes y t
  end.

Definition unique (ar : list Z) : list Z :=
  match merge_sort Z.le ar with
  | [] => []
  | x :: t => x :: keep_changes x t
  end.

(** [np.setdiff1d(ar1, ar2)]: the sorted, unique values of [ar1] that are
    not in [ar2]. *)
Definition setdiff1d (ar1 ar2 : list Z) : list Z :=
  let ar1 := unique ar1 in
  let ar2 := unique ar2 in
  filter (λ x, x ∉ ar2) ar1.

(** [np.sum(a)] of an integer array (accumulated in 64 bits; the sums below
    are bounded by the length of the array). *)
Definition sum (a : list Z) : Z := foldr Z.add 0 a.

End Np.

(** ** The pseudorandom generator interface

    [RandomState seed] is the constructor [np.random.RandomState(seed)],
    which rejects some seeds; [shuffle g a] is the method
    [g.shuffle(a)]: it returns the array after the in-place shuffle and
    the generator's next state.  The one law is that a shuffle rearranges
    the array. *)

Class Generator (G : Type) := {
  RandomState : Z → option G;
  shuffle : G → list Z → list Z * G;
  shuffle_Permutation g a : (shuffle g a).1 ≡ₚ a
}.

(** ** hw1/cross_validation.py *)

Module CrossValidation.

(** Values that may be passed as [random_state]: an int, or a reference to
    an object on the heap. *)
Inductive pyobj : Set :=
  | PyInt (s : Z)
  | PyRef (l : positive).

(** The heap holds the live generator objects; a reference to anything
    else is an object without a [rand] attribute. *)
Abbreviation heap G := (gmap positive G).

Section splitter.
Context {G : Type} `{!Generator G}.

(** Computations that may raise and that may mutate generator objects.
    The heap is returned in both cases: what was mutated before an
    exception stays mutated. *)
Definition M (A : Type) : Type := heap G → result A * heap G.

#[local] Instance M_ret : MRet M := λ A a h, (Ok a, h).
#[local] Instance M_bind : MBind M := λ A B k c h,
  match c h with
  | (Ok a, h') => k a h'
  | (Raise e, h') => (Raise e, h')
  end.
Definition lift {A} (r : result A) : M A := λ h, (r, h).

(** The generator the function works with after lines 149-155: the
    caller's object (aliased), or a fresh local one. *)
Inductive rng : Type :=
  | Passed (l : positive)
  | Fresh (g : G).

(** Lines 149-155.  [hasattr(random_state, 'rand')] holds for generator
    objects; otherwise the value goes through [int(...)] and the
    constructor. *)
Definition get_random_state (random_state : pyobj) : M rng :=
  λ h, match random_state with
       | PyRef l =>
           match h !! l with
           | Some _ => (Ok (Passed l), h)
           | None => (Raise TypeError, h)
           end
       | PyInt s =>
           match RandomState s with
           | Some g => (Ok (Fresh g), h)
           | None => (Raise ValueError, h)
           end
       end.

(** Line 159: [random_state.shuffle(all_indices)].  A passed-in generator
    is advanced on the heap; a fresh one is local to the call.  (A
    passed-in generator is on the heap: [get_random_state] has just found
    it there.) *)
Definition shuffle_with (r : rng) (a : list Z) : M (list Z) :=
  λ h, match r with
       | Fresh g => (Ok (shuffle g a).1, h)
       | Passed l =>
           match h !! l with
           | Some g => (Ok (shuffle g a).1, <[l := (shuffle g a).2]> h)
           | None => (Raise TypeError, h)
           end
       end.

(** Lines 165-177: the loop over [fold_sizes]. *)
Fixpoint fold_loop (all_indices : list Z) (fold_sizes : list Z) (current : Z)
    (train_ids_per_fold test_ids_per_fold : list (list Z))
    : list (list Z) * list (list Z) :=
  match fold_sizes with
  | [] => (train_ids_per_fold, test_ids_per_fold)
  | fold_size :: rest =>
      let test_ids := slice all_indices current (current + fold_size) in
      let test_ids_per_fold := test_ids_per_fold ++ [test_ids] in
      let train_ids := Np.setdiff1d all_indices test_ids in
      let train_ids_per_fold := train_ids_per_fold ++ [train_ids] in
      fold_loop all_indices rest (current + fold_size)
        train_ids_per_fold test_ids_per_fold
  end.

(** Lines 161-162: the fold sizes. *)
Definition make_fold_sizes (n_examples n_folds : Z) : result (list Z) :=
  match floordiv n_examples n_folds with
  | Raise e => Raise e
  | Ok q =>
      match Np.full n_folds q with
      | Raise e => Raise e
      | Ok fold_sizes =>
          match mod_ n_examples n_folds with
          | Raise e => Raise e
          | Ok r => Ok (slice_prefix_incr fold_sizes r)
          end
      end
  end.

Definition make_train_and_test_row_ids_for_n_fold_cv
    (n_examples n_folds : Z) (random_state : pyobj)
    : M (list (list Z) * list (list Z)) :=
  random_state ← get_random_state random_state;
  all_indices ← shuffle_with random_state (Np.arange n_examples);
  fold_sizes ← lift (make_fold_sizes n_examples n_folds);
  mret (fold_loop all_indices fold_sizes 0 [] []).

End splitter.

(** *** Vocabulary for the guarantees *)

Section vocabulary.
Context {G : Type} `{!Generator G}.
Implicit Types (h : heap G) (g : G).

(** The state of the generator a call is going to use, if there is one. *)
Definition rng_state (random_state : pyobj) h : option G :=
  match random_state with
  | PyInt s => RandomState s
  | PyRef l => h !! l
  end.

(** The heap after a call that used generator state [g]: a passed-in
    generator has been advanced by one shuffle, a seed leaves the heap as
    it was. *)
Definition heap_after (random_state : pyobj) h g (n_examples : Z) : heap G :=
  match random_state with
  | PyInt _ => h
  | PyRef l => <[l := (shuffle g (Np.arange n_examples)).2]> h
  end.

(** The shuffled order of the row ids drawn from generator state [g]. *)
Definition shuffled g (n_examples : Z) : list Z := (shuffle g (Np.arange n_examples)).1.

End vocabulary.

(** The blocks the loop cuts: consecutive runs of the given lengths. *)
Fixpoint blocks (all_indices : list Z) (current : nat) (sizes : list nat)
    : list (list Z) :=
  match sizes with
  | [] => []
  | n :: rest =>
      take n (drop current all_indices) :: blocks all_indices (current + n) rest
  end.

(** Size of block [f]: [N // n_folds], plus one for the first
    [N % n_folds] blocks. *)
Definition block_size (n_examples n_folds : Z) (f : nat) : Z :=
  n_examples `div` n_folds
  + (if decide (Z.of_nat f < n_examples `mod` n_folds) then 1 else 0).

Definition block_sizes (n_examples n_folds : Z) : list nat :=
  let q := Z.to_nat (n_examples `div` n_folds) in
  let r := Z.to_nat (n_examples `mod` n_folds) in
  replicate r (S q) ++ replicate (Z.to_nat n_folds - r) q.

(** The set of example indices [{0, ..., N-1}]. *)
Definition index_set (n_examples : Z) : gset Z := list_to_set (seqZ 0 n_examples).

(** Where block [f] starts in the shuffled order. *)
Definition block_start (n_examples n_folds : Z) (f : nat) : Z :=
  Z.of_nat f * (n_examples `div` n_folds)
  + Z.min (Z.of_nat f) (n_examples `mod` n_folds).

End CrossValidation.

(** ** hw2/binary_metrics.py

    The [assert] on the shapes is executed, as it is unless the
    interpreter runs with assertions switched off. *)

Module BinaryMetrics.

(** Arithmetic on int32 arrays wraps around. *)
Definition wrap32 (z : Z) : Z := (z + 2 ^ 31) `mod` 2 ^ 32 - 2 ^ 31.

(** A Python int that fits in 32 bits. *)
Definition int32 (z : Z) : Prop := - 2 ^ 31 ≤ z < 2 ^ 31.

#[export] Instance int32_dec (z : Z) : Decision (int32 z) :=
  (_ : Decision (- 2 ^ 31 ≤ z ∧ z < 2 ^ 31)).

(** [np.asarray(y, dtype=np.int32)] on a sequence of Python ints: labels
    are modelled by the integer they denote.  The cast keeps the values
    that fit in 32 bits (in particular the labels 0 and 1); a sequence
    with a value that does not fit is rejected with OverflowError, as
    numpy 2 does (earlier versions wrapped a value that fits in 64
    bits).  The cast runs before the shapes are compared. *)
Definition asarray_int32 (y : list Z) : result (list Z) :=
  if decide (Forall int32 y) then Ok y else Raise OverflowError.

(** [1 - y] on an int32 array. *)
Definition one_minus (y : list Z) : list Z := (λ v, wrap32 (1 - v)) <$> y.

(** [a & b] on two int32 arrays of the same shape. *)
Definition and_ (a b : list Z) : list Z := zip_with Z.land a b.

(** Lines 57-66. *)
Definition calc_TP_TN_FP_FN (ytrue_N yhat_N : list Z) : result (Z * Z * Z * Z) :=
  ytrue_N ← asarray_int32 ytrue_N;
  yhat_N ← asarray_int32 yhat_N;
  if decide (length ytrue_N = length yhat_N) then
    let TP := Np.sum (and_ ytrue_N yhat_N) in
    let TN := Np.sum (and_ (one_minus ytrue_N) (one_minus yhat_N)) in
    let FP := Np.sum (and_ (one_minus ytrue_N) yhat_N) in
    let FN := Np.sum (and_ ytrue_N (one_minus yhat_N)) in
    Ok (TP, TN, FP, FN)
  else Raise AssertionError.

(** The literal [1e-10]: the nearest double. *)
Definition eps : float := 0x1.b7cdfd9d7bdbbp-34%float.

(** [(TP + TN)/(TP + TN + FP + FN + 1e-10)]: the denominator adds a float
    to an int, the division divides an int by that float. *)
Definition calc_ACC (ytrue_N yhat_N : list Z) : result float :=
  '(TP, TN, FP, FN) ← calc_TP_TN_FP_FN ytrue_N yhat_N;
  den ← int_add_float (TP + TN + FP + FN) eps;
  int_truediv_float (TP + TN) den.

(** [TP/(TP + FN + 1e-10)] *)
Definition calc_TPR (ytrue_N yhat_N : list Z) : result float :=
  '(TP, TN, FP, FN) ← calc_TP_TN_FP_FN ytrue_N yhat_N;
  den ← int_add_float (TP + FN) eps;
  int_truediv_float TP den.

(** [TP/(TP + FP + 1e-10)] *)
Definition calc_PPV (ytrue_N yhat_N : list Z) : result float :=
  '(TP, TN, FP, FN) ← calc_TP_TN_FP_FN ytrue_N yhat_N;
  den ← int_add_float (TP + FP) eps;
  int_truediv_float TP den.

(** A label is binary when it is 0 or 1. *)
Definition binary (y : Z) : Prop := y = 0 ∨ y = 1.

(** A float in the interval [0, 1] (which excludes NaN). *)
Definition in_unit (q : float) : Prop :=
  (0 <=? q)%float = true ∧ (q <=? 1)%float = true.

(** The number of positions where the true label is [t] and the predicted
    label is [p]. *)
Definition count_pairs (t p : Z) (ytrue yhat : list Z) : Z :=
  Z.of_nat (length (filter (λ tp, tp = (t, p)) (zip ytrue yhat))).

End BinaryMetrics.

(** ** Binary64 rounding: vocabulary

    [SpecFloat] rounds a positive mantissa [m] at exponent [e] together
    with a location, which says where the exact value lies between [m] and
    [m + 1].  The exact value is kept as a fraction [N / D]. *)

Module Binary64.

(** The location [l] places [N / D] relative to [m]. *)
Definition loc_ok (N D m : Z) (l : location) : Prop :=
  match l with
  | loc_Exact => N = m * D
  | loc_Inexact c => m * D < N < (m + 1) * D ∧ (2 * N ?= (2 * m + 1) * D) = c
  end.

Definition rec_ok (N D : Z) (r : shr_record) : Prop :=
  0 ≤ shr_m r ∧ loc_ok N D (shr_m r) (loc_of_shr_record r).

(** The location of [N / D] relative to its integer part. *)
Definition loc_of_frac (N D : Z) : location :=
  if N mod D =? 0 then loc_Exact else loc_Inexact (2 * (N mod D) ?= D).

(** [N / D] rounded to the nearest integer, ties to even. *)
Definition rne (N D : Z) : Z := round_nearest_even (N / D) (loc_of_frac N D).

(** The positive float with mantissa [m2] in [2^52, 2^53] at exponent
    [e1]; the mantissa [2^53] is renormalised. *)
Definition mk_float (m2 e1 : Z) : spec_float :=
  if m2 <? 2 ^ 53 then S754_finite false (Z.to_pos m2) e1
  else S754_finite false (Z.to_pos (2 ^ 52)) (e1 + 1).

(** The mantissa of a positive integer [M] rounded to 53 bits. *)
Definition rounded_m (M : Z) : Z :=
  let dg := Zdigits2 M in
  rne (M * 2 ^ Z.max 0 (53 - dg)) (2 ^ Z.max 0 (dg - 53)).

(** Positive floats with a full 53-bit mantissa, and their order: by
    exponent, then by mantissa. *)
Definition pos53 (m : Z) : Prop := 2 ^ 52 ≤ m < 2 ^ 53.

Definition is_float (x : spec_float) (m e : Z) : Prop :=
  x = S754_finite false (Z.to_pos m) e ∧ pos53 m.

Definition lex_le (m1 e1 m2 e2 : Z) : Prop := e1 < e2 ∨ (e1 = e2 ∧ m1 ≤ m2).

(** Mantissa and exponent of [BinaryMetrics.eps]. *)
Definition eps_m : positive := 7737125245533627.
Definition eps_e : Z := -86.

End Binary64.

(** ** A small generator implementing the interface

    A linear congruential generator with a selection shuffle: each step
    draws a position of the remaining array and moves that element to the
    output.  It is used to run the splitter on concrete inputs (numpy's
    Mersenne Twister is not modelled).  Like numpy's constructor it
    accepts the seeds [0 .. 2^32 - 1]. *)

Module Lcg.

Definition next (g : Z) : Z := (1103515245 * g + 12345) `mod` 2 ^ 31.

Fixpoint draw (n : nat) (g : Z) (a : list Z) : list Z * Z :=
  match n with
  | O => ([], g)
  | S n' =>
      let j := Z.to_nat (next g `mod` Z.of_nat (length a)) in
      match a !! j with
      | Some x => let '(out, g') := draw n' (next g) (delete j a) in (x :: out, g')
      | None => ([], g)
      end
  end.

Definition seed (s : Z) : option Z :=
  if decide (0 ≤ s < 2 ^ 32) then Some s else None.

Definition shuffle (g : Z) (a : list Z) : list Z * Z := draw (length a) g a.

End Lcg.

(** ** Python and numpy: indexing, and exceptions raised by callbacks *)

Module Indexing.

(** The exceptions of the driver: those of [Py.exn], and [IndexError]. *)
Inductive exc : Set :=
  | Builtin (e : exn)
  | IndexError.

Inductive outcome (A : Type) : Type :=
  | Return (a : A)
  | Throw (e : exc).
Arguments Return {A} a.
Arguments Throw {A} e.

#[export] Instance outcome_ret : MRet outcome := λ A a, Return a.
#[export] Instance outcome_bind : MBind outcome := λ A B k r,
  match r with Return a => k a | Throw e => Throw e end.

Definition of_result {A} (r : result A) : outcome A :=
  match r with Ok a => Return a | Raise e => Throw (Builtin e) end.

(** Position of index [i] in a sequence of length [len]: a negative index
    counts from the end; outside [-len, len) there is none. *)
Definition position (len : nat) (i : Z) : option nat :=
  let j := if decide (i < 0) then i + Z.of_nat len else i in
  if decide (0 ≤ j < Z.of_nat len) then Some (Z.to_nat j) else None.

(** [l[i]] on a Python list or a numpy array. *)
Definition getitem {A} (l : list A) (i : Z) : outcome A :=
  match position (length l) i ≫= (l !!.) with
  | Some x => Return x
  | None => Throw IndexError
  end.

(** [a[ids]] on a numpy array with an integer array [ids]: the selected
    entries, in the order of [ids]. *)
Definition take_ids {A} (a : list A) (ids : list Z) : outcome (list A) :=
  mapM (M := outcome) (getitem a) ids.

(** [a[i] = v] on a numpy array. *)
Definition setitem {A} (a : list A) (i : Z) (v : A) : outcome (list A) :=
  match position (length a) i with
  | Some j => Return (<[j := v]> a)
  | None => Throw IndexError
  end.

(** A double stored in a [float32] array: rounded to binary32 (24-bit
    mantissa, ties to even, overflow to infinity). *)
Definition float32 (v : float) : spec_float :=
  match Prim2SF v with
  | S754_finite s m e => binary_round 24 128 s m e
  | x => x
  end.

(** [np.zeros(n, dtype=np.float32)] *)
Definition zeros (n : Z) : outcome (list spec_float) :=
  if decide (n < 0) then Throw (Builtin ValueError)
  else Return (replicate (Z.to_nat n) (S754_zero false)).

End Indexing.
Export Indexing.

(** ** hw1/cross_validation.py: the driver *)

(** An estimator object: [fit] and [predict] may raise and may change the
    object. *)
Class Estimator (E : Type) := {
  fit : list (list float) → list float → E → outcome () * E;
  predict : list (list float) → E → outcome (list float) * E
}.

Module Driver.
Import CrossValidation.

Section driver.
Context {G : Type} `{!Generator G} {E : Type} `{!Estimator E}.

(** [calc_root_mean_squared_error], imported from [performance_metrics]. *)
Variable calc_root_mean_squared_error : list float → list float → outcome float.

(** Computations of the driver: they may raise, and they may change the
    generator objects and the estimator object. *)
Definition D (A : Type) : Type := heap G * E → outcome A * (heap G * E).

#[local] Instance D_ret : MRet D := λ A a s, (Return a, s).
#[local] Instance D_bind : MBind D := λ A B k c s,
  match c s with
  | (Return a, s') => k a s'
  | (Throw e, s') => (Throw e, s')
  end.

Definition pure {A} (r : outcome A) : D A := λ s, (r, s).

Definition splitter {A} (c : M A) : D A :=
  λ s, let '(r, h') := c s.1 in (of_result r, (h', s.2)).

Definition estimator {A} (c : E → outcome A * E) : D A :=
  λ s, let '(r, e') := c s.2 in (r, (s.1, e')).

(** Lines 68-84: one iteration of the loop over the folds. *)
Definition fold_body (x_NF : list (list float)) (y_N : list float)
    (train_ids_per_fold test_ids_per_fold : list (list Z)) (fold : Z)
    (errors : list spec_float * list spec_float)
    : D (list spec_float * list spec_float) :=
  let '(train_error_per_fold, test_error_per_fold) := errors in
  train_ids ← pure (getitem train_ids_per_fold fold);
  test_ids ← pure (getitem test_ids_per_fold fold);
  x_train ← pure (take_ids x_NF train_ids);
  y_train ← pure (take_ids y_N train_ids);
  x_test ← pure (take_ids x_NF test_ids);
  y_test ← pure (take_ids y_N test_ids);
  _ ← estimator (fit x_train y_train);
  y_train_pred ← estimator (predict x_train);
  y_test_pred ← estimator (predict x_test);
  train_error ← pure (calc_root_mean_squared_error y_train y_train_pred);
  train_error_per_fold ← pure (setitem train_error_per_fold fold (float32 train_error));
  test_error ← pure (calc_root_mean_squared_error y_test y_test_pred);
  test_error_per_fold ← pure (setitem test_error_per_fold fold (float32 test_error));
  mret (train_error_per_fold, test_error_per_fold).

(** Line 67: [for fold in range(n_folds)]. *)
Fixpoint score_loop (x_NF : list (list float)) (y_N : list float)
    (train_ids_per_fold test_ids_per_fold : list (list Z)) (folds : list Z)
    (errors : list spec_float * list spec_float)
    : D (list spec_float * list spec_float) :=
  match folds with
  | [] => mret errors
  | fold :: rest =>
      errors ← fold_body x_NF y_N train_ids_per_fold test_ids_per_fold fold errors;
      score_loop x_NF y_N train_ids_per_fold test_ids_per_fold rest errors
  end.

Definition train_models_and_calc_scores_for_n_fold_cv
    (x_NF : list (list float)) (y_N : list float) (n_folds : Z)
    (random_state : pyobj) : D (list spec_float * list spec_float) :=
  train_error_per_fold ← pure (zeros n_folds);
  test_error_per_fold ← pure (zeros n_folds);
  ids ← splitter (make_train_and_test_row_ids_for_n_fold_cv
                    (Z.of_nat (length x_NF)) n_folds random_state);
  score_loop x_NF y_N ids.1 ids.2 (seqZ 0 n_folds)
    (train_error_per_fold, test_error_per_fold).

End driver.

End Driver.

(** *** Vocabulary for the driver *)

Module DriverSpec.
Import CrossValidation.

(** The entries of [a] at the positions [ids] (all within range). *)
Definition rows {A} (a : list A) (ids : list Z) : list A :=
  omap (λ i, a !! Z.to_nat i) ids.

(** A call of a method of the estimator. *)
Inductive call : Type :=
  | Fit (x : list (list float)) (y : list float)
  | Predict (x : list (list float)).

(** An estimator that keeps a log of the calls it receives, and passes
    them on to the estimator it wraps. *)
#[export] Instance Logged {E} `{!Estimator E} : Estimator (E * list call) := {|
  fit x y s := let '(r, e) := fit x y s.1 in (r, (e, s.2 ++ [Fit x y]));
  predict x s := let '(r, e) := predict x s.1 in (r, (e, s.2 ++ [Predict x]))
|}.

(** The calls of one fold, and of all folds in order. *)
Definition fold_calls (x_NF : list (list float)) (y_N : list float)
    (train_ids test_ids : list Z) : list call :=
  [Fit (rows x_NF train_ids) (rows y_N train_ids);
   Predict (rows x_NF train_ids);
   Predict (rows x_NF test_ids)].

Definition all_calls (x_NF : list (list float)) (y_N : list float)
    (train_ids_per_fold test_ids_per_fold : list (list Z)) : list call :=
  concat (zip_with (fold_calls x_NF y_N) train_ids_per_fold test_ids_per_fold).

#[local] Existing Instances Driver.D_ret Driver.D_bind.

(** One iteration of the loop once the ids are known to be in range:
    the calls of the callbacks on the selected rows, and the two stores. *)
Definition fold_step {G E} `{!Estimator E}
    (rmse : list float → list float → outcome float)
    (x_train : list (list float)) (y_train : list float)
    (x_test : list (list float)) (y_test : list float) (fold : nat)
    (errors : list spec_float * list spec_float)
    : Driver.D (G := G) (E := E) (list spec_float * list spec_float) :=
  _ ← Driver.estimator (fit x_train y_train);
  y_train_pred ← Driver.estimator (predict x_train);
  y_test_pred ← Driver.estimator (predict x_test);
  train_error ← Driver.pure (rmse y_train y_train_pred);
  test_error ← Driver.pure (rmse y_test y_test_pred);
  mret (<[fold := float32 train_error]> errors.1,
        <[fold := float32 test_error]> errors.2).

(** Ids that index the rows of [x]. *)
Definition in_range {A} (x : list A) (ids : list Z) : Prop :=
  Forall (λ i, 0 ≤ i < Z.of_nat (length x)) ids.

(** An entry of an error array for the rows [ids]: the float32 value of
    the error between the targets of these rows and a prediction that the
    estimator returned for them. *)
Definition error_entry {E} `{!Estimator E}
    (rmse : list float → list float → outcome float)
    (x_NF : list (list float)) (y_N : list float) (ids : list Z)
    (v : spec_float) : Prop :=
  ∃ e y_pred err,
    (predict (rows x_NF ids) e).1 = Return y_pred ∧
    rmse (rows y_N ids) y_pred = Return err ∧
    v = float32 err.

(** An exception that some call of a callback raises. *)
Definition raised_by_callback {E} `{!Estimator E}
    (rmse : list float → list float → outcome float) (ex : exc) : Prop :=
  (∃ x y e, (fit x y e).1 = Throw ex) ∨
  (∃ x e, (predict x e).1 = Throw ex) ∨
  (∃ a b, rmse a b = Throw ex).

End DriverSpec.

(** ** An estimator and an error function to run the driver with

    The estimator predicts the mean of the targets it was fitted on, and
    refuses to be fitted on no data; the error is the root of the mean
    squared difference.  *)

Module Demo.

Definition fsum (l : list float) : float := foldl PrimFloat.add 0%float l.

Definition mean (l : list float) : float :=
  (fsum l / to_float (Z.of_nat (length l)))%float.

#[export] Instance MeanEstimator : Estimator (option float) := {|
  fit x y e :=
    if decide (y = []) then (Throw (Builtin ValueError), e)
    else (Return (), Some (mean y));
  predict x e :=
    match e with
    | Some m => (Return (replicate (length x) m), e)
    | None => (Throw (Builtin ValueError), e)
    end
|}.

Definition rmse (a b : list float) : outcome float :=
  if decide (length a = length b) then
    Return (PrimFloat.sqrt (mean (zip_with (λ u v, (u - v) * (u - v))%float a b)))
  else Throw (Builtin ValueError).

End Demo.

(** * Properties *)

(** ** Slices *)

Section slices.
Context {A : Type}.
Implicit Types l : list A.

Lemma slice_index_in_range len i : 0 ≤ i ≤ len → slice_index len i = i.
Proof. intros ?. unfold slice_index. case_decide; lia. Qed.

(** Within bounds a slice is a [take] of a [drop]. *)
Lemma slice_take_drop l (a b : nat) :
  (a ≤ b ≤ length l)%nat →
  slice l (Z.of_nat a) (Z.of_nat b) = take (b - a) (drop a l).
Proof.
  intros ?. unfold slice.
  rewrite !slice_index_in_range by lia.
  by replace (Z.to_nat (Z.of_nat b - Z.of_nat a)) with (b - a)%nat by lia;
     rewrite Nat2Z.id.
Qed.

End slices.

Lemma slice_prefix_incr_replicate (n r : nat) (q : Z) :
  (r ≤ n)%nat →
  slice_prefix_incr (replicate n q) (Z.of_nat r)
  = replicate r (q + 1) ++ replicate (n - r) q.
Proof.
  intros ?. unfold slice_prefix_incr.
  rewrite length_replicate, slice_index_in_range, Nat2Z.id by lia.
  rewrite take_replicate, drop_replicate, fmap_replicate.
  by rewrite Nat.min_l by lia.
Qed.

(** ** [np.unique] and [np.setdiff1d] *)

Module NpFacts.
Import Np.

Lemma elem_of_keep_changes x prev t :
  x ∈ prev :: keep_changes prev t ↔ x ∈ prev :: t.
Proof.
  revert prev. induction t as [|y t IH]; intros prev; simpl; [done|].
  case_decide as Hy.
  - subst y. rewrite IH, !elem_of_cons. tauto.
  - rewrite (elem_of_cons _ x prev), IH, !elem_of_cons. tauto.
Qed.

Lemma elem_of_unique x ar : x ∈ unique ar ↔ x ∈ ar.
Proof.
  unfold unique. rewrite <-(merge_sort_Permutation Z.le ar) at 2.
  destruct (merge_sort Z.le ar); [done|]. apply elem_of_keep_changes.
Qed.

(** On an array without repeated values nothing is dropped. *)
Lemma keep_changes_NoDup prev t : NoDup (prev :: t) → keep_changes prev t = t.
Proof.
  revert prev. induction t as [|y t IH]; intros prev Hnd; simpl; [done|].
  apply NoDup_cons in Hnd as [Hprev Hnd].
  case_decide; [set_solver|]. by rewrite IH.
Qed.

Lemma unique_NoDup ar : NoDup ar → unique ar = merge_sort Z.le ar.
Proof.
  intros Hnd. unfold unique.
  rewrite <-(merge_sort_Permutation Z.le ar) in Hnd.
  destruct (merge_sort Z.le ar); [done|]. by rewrite keep_changes_NoDup.
Qed.

Lemma unique_Permutation ar : NoDup ar → unique ar ≡ₚ ar.
Proof. intros ?. rewrite unique_NoDup by done. apply merge_sort_Permutation. Qed.

Lemma elem_of_setdiff1d x ar1 ar2 : x ∈ setdiff1d ar1 ar2 ↔ x ∈ ar1 ∧ x ∉ ar2.
Proof.
  unfold setdiff1d; cbv zeta.
  rewrite list_elem_of_filter.
  pose proof (elem_of_unique x ar1). pose proof (elem_of_unique x ar2). tauto.
Qed.

Lemma setdiff1d_Permutation ar1 ar2 :
  NoDup ar1 → setdiff1d ar1 ar2 ≡ₚ filter (λ x, x ∉ ar2) ar1.
Proof.
  intros Hnd. unfold setdiff1d; cbv zeta.
  apply NoDup_Permutation.
  - apply NoDup_filter. by rewrite unique_Permutation.
  - by apply NoDup_filter.
  - intros x. rewrite !list_elem_of_filter.
    pose proof (elem_of_unique x ar1). pose proof (elem_of_unique x ar2). tauto.
Qed.

Lemma NoDup_setdiff1d ar1 ar2 : NoDup ar1 → NoDup (setdiff1d ar1 ar2).
Proof.
  intros ?. rewrite setdiff1d_Permutation by done. by apply NoDup_filter.
Qed.

Lemma setdiff1d_self ar : setdiff1d ar ar = [].
Proof.
  destruct (setdiff1d ar ar) as [|x l] eqn:E; [done|].
  assert (x ∈ setdiff1d ar ar) as Hx by (rewrite E; left).
  apply elem_of_setdiff1d in Hx. tauto.
Qed.

End NpFacts.

(** ** The small generator satisfies the interface *)

Lemma Lcg_draw_Permutation n g a : length a = n → (Lcg.draw n g a).1 ≡ₚ a.
Proof.
  revert g a. induction n as [|n IH]; intros g a Hlen; simpl.
  - by destruct a.
  - set (j := Z.to_nat (Lcg.next g `mod` Z.of_nat (length a))).
    assert (j < length a)%nat as Hj.
    { subst j. pose proof (Z.mod_pos_bound (Lcg.next g) (Z.of_nat (length a))). lia. }
    destruct (lookup_lt_is_Some_2 a j Hj) as [x Hx]. rewrite Hx.
    specialize (IH (Lcg.next g) (delete j a)).
    destruct (Lcg.draw n (Lcg.next g) (delete j a)) as [out g'] eqn:E; simpl in *.
    rewrite IH.
    + symmetry. by apply delete_Permutation.
    + rewrite length_delete by eauto. lia.
Qed.

#[export] Instance Lcg_Generator : Generator Z := {|
  RandomState := Lcg.seed;
  shuffle := Lcg.shuffle;
  shuffle_Permutation g a := Lcg_draw_Permutation (length a) g a eq_refl
|}.

(** ** The splitter *)

Module Splitter.
Import Np NpFacts CrossValidation.

Lemma elem_of_index_set N i : i ∈ index_set N ↔ 0 ≤ i < N.
Proof. unfold index_set. rewrite elem_of_list_to_set, elem_of_seqZ. lia. Qed.

(** *** Blocks *)

Lemma length_blocks a cur sizes : length (blocks a cur sizes) = length sizes.
Proof. revert cur. induction sizes; intros; simpl; auto. Qed.

Lemma concat_blocks a cur sizes :
  concat (blocks a cur sizes) = take (sum_list sizes) (drop cur a).
Proof.
  revert cur. induction sizes as [|n sizes IH]; intros cur; simpl; [done|].
  by rewrite IH, <-take_take_drop, drop_drop.
Qed.

Lemma lookup_blocks a cur sizes f n :
  sizes !! f = Some n →
  blocks a cur sizes !! f
  = Some (take n (drop (cur + sum_list (take f sizes)) a)).
Proof.
  revert cur f. induction sizes as [|m sizes IH]; intros cur f Hf; [done|].
  destruct f as [|f]; simpl in *.
  - injection Hf as ->. by rewrite Nat.add_0_r.
  - rewrite (IH _ _ Hf). by rewrite Nat.add_assoc.
Qed.

Lemma length_lookup_blocks a cur sizes f b n :
  (cur + sum_list sizes ≤ length a)%nat →
  blocks a cur sizes !! f = Some b → sizes !! f = Some n → length b = n.
Proof.
  revert cur f. induction sizes as [|m sizes IH]; intros cur f Hle Hb Hn; [done|].
  destruct f as [|f]; simpl in *.
  - injection Hb as <-. injection Hn as ->.
    rewrite length_take, length_drop. lia.
  - eapply (IH (cur + m)%nat); eauto. lia.
Qed.

(** The loop appends one block, and its complement, per fold size. *)
Lemma fold_loop_blocks a sizes cur trs tes :
  (cur + sum_list sizes ≤ length a)%nat →
  fold_loop a (Z.of_nat <$> sizes) (Z.of_nat cur) trs tes
  = (trs ++ ((λ te, setdiff1d a te) <$> blocks a cur sizes),
     tes ++ blocks a cur sizes).
Proof.
  revert cur trs tes.
  induction sizes as [|n sizes IH]; intros cur trs tes Hle; simpl in *.
  - by rewrite !app_nil_r.
  - rewrite <-Nat2Z.inj_add, slice_take_drop by lia.
    rewrite IH by lia. replace (cur + n - cur)%nat with n by lia.
    by rewrite <-!app_assoc.
Qed.

(** *** Fold sizes *)

Lemma sum_block_sizes N k : 0 ≤ N → 0 < k → Z.of_nat (sum_list (block_sizes N k)) = N.
Proof.
  intros HN Hk. unfold block_sizes; cbv zeta.
  pose proof (Z.mod_pos_bound N k Hk).
  pose proof (Z.div_pos N k HN Hk).
  rewrite sum_list_with_app, !sum_list_replicate.
  rewrite (Z.div_mod N k) at 5 by lia. nia.
Qed.

Lemma length_block_sizes N k : 0 < k → length (block_sizes N k) = Z.to_nat k.
Proof.
  intros Hk. unfold block_sizes; cbv zeta.
  pose proof (Z.mod_pos_bound N k Hk).
  rewrite length_app, !length_replicate. lia.
Qed.

Lemma lookup_block_sizes N k f n :
  0 ≤ N → 0 < k →
  block_sizes N k !! f = Some n ↔ (f < Z.to_nat k)%nat ∧ Z.of_nat n = block_size N k f.
Proof.
  intros HN Hk. unfold block_sizes, block_size; cbv zeta.
  pose proof (Z.mod_pos_bound N k Hk).
  pose proof (Z.div_pos N k HN Hk).
  rewrite lookup_app_Some, !lookup_replicate, length_replicate.
  case_decide; split; intros; destruct_and?; destruct_or?; destruct_and?; lia.
Qed.

Lemma make_fold_sizes_ok N k :
  0 ≤ N → 0 < k → make_fold_sizes N k = Ok (Z.of_nat <$> block_sizes N k).
Proof.
  intros HN Hk. unfold make_fold_sizes, floordiv, mod_, full, block_sizes.
  pose proof (Z.mod_pos_bound N k Hk).
  pose proof (Z.div_pos N k HN Hk).
  rewrite !decide_False by lia. f_equal.
  rewrite <-(Z2Nat.id (N `mod` k)) at 1 by lia.
  rewrite slice_prefix_incr_replicate by lia.
  rewrite fmap_app, !fmap_replicate. repeat f_equal; lia.
Qed.

(** *** Running the function *)

Section run.
Context {G : Type} `{!Generator G}.
Implicit Types (h : heap G) (g : G).

Lemma shuffled_Permutation g N : shuffled g N ≡ₚ seqZ 0 N.
Proof. apply shuffle_Permutation. Qed.

Lemma NoDup_shuffled g N : NoDup (shuffled g N).
Proof. rewrite shuffled_Permutation. apply NoDup_seqZ. Qed.

Lemma length_shuffled g N : length (shuffled g N) = Z.to_nat N.
Proof. rewrite shuffled_Permutation. apply length_seqZ. Qed.

Lemma elem_of_shuffled g N i : i ∈ shuffled g N ↔ 0 ≤ i < N.
Proof. rewrite shuffled_Permutation, elem_of_seqZ. lia. Qed.

(** With a usable generator and a positive fold count the call returns:
    the test folds are the blocks of the shuffled order, the train folds
    their complements. *)
Lemma run_ok N k rs h g :
  0 ≤ N → 0 < k → rng_state rs h = Some g →
  make_train_and_test_row_ids_for_n_fold_cv N k rs h
  = (Ok ((λ te, setdiff1d (shuffled g N) te) <$> blocks (shuffled g N) 0 (block_sizes N k),
         blocks (shuffled g N) 0 (block_sizes N k)),
     heap_after rs h g N).
Proof.
  intros HN Hk Hg.
  unfold make_train_and_test_row_ids_for_n_fold_cv, mbind, M_bind, mret, M_ret, lift.
  assert (fold_loop (shuffled g N) (Z.of_nat <$> block_sizes N k) 0 [] []
          = ((λ te, setdiff1d (shuffled g N) te) <$> blocks (shuffled g N) 0 (block_sizes N k),
             blocks (shuffled g N) 0 (block_sizes N k))) as Hloop.
  { change 0 with (Z.of_nat 0). rewrite fold_loop_blocks; [done|].
    rewrite length_shuffled. pose proof (sum_block_sizes N k HN Hk). lia. }
  unfold get_random_state, shuffle_with.
  destruct rs as [s|l]; cbn [rng_state heap_after] in *; rewrite Hg;
    cbn iota beta; rewrite ?Hg; cbn iota beta;
    rewrite make_fold_sizes_ok by done; cbn iota beta;
    fold (shuffled g N); by rewrite Hloop.
Qed.

End run.

(** *** Complements and lists of disjoint blocks *)

Lemma length_setdiff1d a te :
  NoDup a → NoDup te → te ⊆ a →
  (length (setdiff1d a te) + length te = length a)%nat.
Proof.
  intros Ha Hte Hsub.
  rewrite (Permutation_length (setdiff1d_Permutation a te Ha)).
  pose proof (Permutation_length (filter_app_complement (λ x, x ∉ te) a)) as Hsplit.
  rewrite length_app in Hsplit. rewrite <-Hsplit.
  f_equal. apply Permutation_length, NoDup_Permutation.
  - done.
  - by apply NoDup_filter.
  - intros x. rewrite list_elem_of_filter. split.
    + intros Hx. split; [tauto | by apply Hsub].
    + intros [Hx _]. by destruct (decide (x ∈ te)).
Qed.

Lemma blocks_sublist a cur sizes b :
  b ∈ blocks a cur sizes → b `sublist_of` a.
Proof.
  revert cur. induction sizes as [|n sizes IH]; intros cur; simpl.
  - by intros ?%elem_of_nil.
  - intros [->|?]%elem_of_cons; [|by eapply IH].
    etrans; [apply sublist_take | apply sublist_drop].
Qed.

Lemma NoDup_concat_disjoint (ls : list (list Z)) i j a b :
  NoDup (concat ls) → i ≠ j → ls !! i = Some a → ls !! j = Some b →
  ∀ x, x ∈ a → x ∉ b.
Proof.
  revert i j. induction ls as [|l ls IH]; intros i j Hnd Hij Hi Hj x Ha Hb; [done|].
  simpl in Hnd. apply NoDup_app in Hnd as (_ & Hdisj & Hnd).
  assert (∀ m c, ls !! m = Some c → x ∈ c → x ∈ concat ls) as Hin.
  { intros m c Hm Hc. apply list_elem_of_In, in_concat. exists c.
    split; apply list_elem_of_In; [by eapply list_elem_of_lookup_2 | done]. }
  destruct i as [|i], j as [|j]; simpl in *; simplify_eq.
  - eapply Hdisj; eauto.
  - eapply Hdisj; eauto.
  - eapply (IH i j); eauto.
Qed.

(** A value of a duplicate-free concatenation lies in exactly one part. *)
Lemma count_in_concat (ls : list (list Z)) x :
  NoDup (concat ls) → x ∈ concat ls →
  length (filter (λ l, x ∈ l) ls) = 1%nat.
Proof.
  induction ls as [|l ls IH]; simpl; intros Hnd Hx.
  - by apply elem_of_nil in Hx.
  - apply NoDup_app in Hnd as (_ & Hdisj & Hnd).
    rewrite filter_cons. case_decide as Hl; simpl.
    + f_equal. apply length_zero_iff_nil.
      destruct (filter _ ls) as [|c cs] eqn:E; [done|exfalso].
      assert (c ∈ filter (λ l, x ∈ l) ls) as Hc by (rewrite E; left).
      apply list_elem_of_filter in Hc as [Hxc Hc].
      apply (Hdisj x Hl). apply list_elem_of_In, in_concat. exists c.
      by split; apply list_elem_of_In.
    + apply IH; [done|]. apply elem_of_app in Hx as [?|?]; tauto.
Qed.

(** Where [F te] holds exactly the values that [te] lacks, a value lies in
    as many images as there are parts that lack it. *)
Lemma count_complements (F : list Z → list Z) (ls : list (list Z)) x :
  (∀ te, x ∈ F te ↔ x ∉ te) →
  (length (filter (λ tr, x ∈ tr) (F <$> ls))
   + length (filter (λ te, x ∈ te) ls) = length ls)%nat.
Proof.
  intros HF. induction ls as [|l ls IH]; [done|].
  rewrite fmap_cons, !filter_cons. specialize (HF l).
  repeat case_decide; simpl; try tauto; lia.
Qed.

(** *** The guarantees of the docstring *)

Section guarantees.
Context {G : Type} `{!Generator G}.
Implicit Types (h : heap G) (g : G) (rs : pyobj).

Lemma concat_test_folds g N k :
  0 ≤ N → 0 < k →
  concat (blocks (shuffled g N) 0 (block_sizes N k)) = shuffled g N.
Proof.
  intros HN Hk. rewrite concat_blocks, drop_0. apply take_ge.
  rewrite length_shuffled. pose proof (sum_block_sizes N k HN Hk). lia.
Qed.

(** What the call returns, fold by fold. *)
Lemma lookup_folds N k rs h g trs tes f tr te :
  0 ≤ N → 0 < k → rng_state rs h = Some g →
  (make_train_and_test_row_ids_for_n_fold_cv N k rs h).1 = Ok (trs, tes) →
  trs !! f = Some tr → tes !! f = Some te →
  tes = blocks (shuffled g N) 0 (block_sizes N k) ∧
  tr = setdiff1d (shuffled g N) te ∧
  te `sublist_of` shuffled g N.
Proof.
  intros HN Hk Hg Hrun Htr Hte.
  rewrite (run_ok N k rs h g) in Hrun by done. simpl in Hrun.
  injection Hrun as <- <-.
  rewrite list_lookup_fmap, Hte in Htr. injection Htr as <-.
  repeat split. eapply blocks_sublist, list_elem_of_lookup_2, Hte.
Qed.

(** C1. For [N >= 0] examples and a positive number of folds, with a usable
    seed or generator, the call returns [n_folds] train and test arrays,
    and for every fold [f]: the train and test ids together are exactly
    [{0, ..., N-1}], no id is in both, and the two sizes add up to [N]
    (neither array repeats an id). *)
Theorem partition_per_fold N k rs h g :
  0 ≤ N → 0 < k → rng_state rs h = Some g →
  ∃ trs tes,
    (make_train_and_test_row_ids_for_n_fold_cv N k rs h).1 = Ok (trs, tes) ∧
    length trs = Z.to_nat k ∧ length tes = Z.to_nat k ∧
    ∀ f tr te, trs !! f = Some tr → tes !! f = Some te →
      list_to_set tr ∪ list_to_set te = index_set N ∧
      list_to_set tr ∩ list_to_set te =@{gset Z} ∅ ∧
      Z.of_nat (length tr) + Z.of_nat (length te) = N ∧
      NoDup tr ∧ NoDup te.
Proof.
  intros HN Hk Hg.
  destruct (make_train_and_test_row_ids_for_n_fold_cv N k rs h).1
    as [[trs tes]|e] eqn:Hrun; [|by rewrite (run_ok N k rs h g) in Hrun].
  exists trs, tes. split; [done|].
  pose proof Hrun as Hrun'. rewrite (run_ok N k rs h g) in Hrun' by done.
  simpl in Hrun'. injection Hrun' as <- <-.
  rewrite length_fmap, length_blocks, length_block_sizes by done.
  do 2 (split; [done|]). intros f tr te Htr Hte.
  destruct (lookup_folds N k rs h g _ _ f tr te HN Hk Hg Hrun Htr Hte)
    as (_ & -> & Hsub).
  pose proof (NoDup_shuffled g N) as Hnd.
  assert (NoDup te) as Hte' by (by eapply sublist_NoDup).
  assert (te ⊆ shuffled g N) as Hincl by (by apply sublist_subseteq).
  split_and!; [| | |by apply NoDup_setdiff1d|done].
  - apply set_eq. intros x.
    rewrite elem_of_union, !elem_of_list_to_set, elem_of_setdiff1d,
      elem_of_index_set, <-(elem_of_shuffled g).
    pose proof (Hincl x). destruct (decide (x ∈ te)); tauto.
  - apply set_eq. intros x.
    rewrite elem_of_intersection, !elem_of_list_to_set, elem_of_setdiff1d,
      elem_of_empty.
    tauto.
  - pose proof (length_setdiff1d _ te Hnd Hte' Hincl) as Hlen.
    rewrite length_shuffled in Hlen. lia.
Qed.

(** C2. Across folds: two different test folds share no id, the test folds
    together are exactly [{0, ..., N-1}] (their concatenation is a
    rearrangement of [0, ..., N-1]), every id is in exactly one test fold
    and in the train arrays of exactly [n_folds - 1] folds. *)
Theorem test_folds_partition N k rs h g :
  0 ≤ N → 0 < k → rng_state rs h = Some g →
  ∃ trs tes,
    (make_train_and_test_row_ids_for_n_fold_cv N k rs h).1 = Ok (trs, tes) ∧
    (∀ f1 f2 te1 te2, f1 ≠ f2 → tes !! f1 = Some te1 → tes !! f2 = Some te2 →
       list_to_set te1 ∩ list_to_set te2 =@{gset Z} ∅) ∧
    ⋃ (list_to_set <$> tes) = index_set N ∧
    concat tes ≡ₚ seqZ 0 N ∧
    ∀ i, 0 ≤ i < N →
      length (filter (λ te, i ∈ te) tes) = 1%nat ∧
      Z.of_nat (length (filter (λ tr, i ∈ tr) trs)) = k - 1.
Proof.
  intros HN Hk Hg. eexists _, _. split; [by rewrite (run_ok N k rs h g)|].
  set (a := shuffled g N). set (tes := blocks a 0 (block_sizes N k)).
  assert (concat tes = a) as Hcat by (by apply concat_test_folds).
  assert (NoDup (concat tes)) as Hnd by (rewrite Hcat; apply NoDup_shuffled).
  split_and!.
  - intros f1 f2 te1 te2 Hne H1 H2. apply set_eq. intros x.
    rewrite elem_of_intersection, !elem_of_list_to_set, elem_of_empty.
    pose proof (NoDup_concat_disjoint tes f1 f2 te1 te2 Hnd Hne H1 H2 x). tauto.
  - apply set_eq. intros x.
    rewrite elem_of_union_list, elem_of_index_set, <-(elem_of_shuffled g).
    fold a. rewrite <-Hcat, list_elem_of_In, in_concat. split.
    + intros (X & (te & -> & Hte)%list_elem_of_fmap & Hx).
      exists te. rewrite <-!list_elem_of_In.
      by apply elem_of_list_to_set in Hx.
    + intros (te & Hte & Hx). exists (list_to_set te).
      apply list_elem_of_In in Hte. apply list_elem_of_In in Hx. split.
      * apply list_elem_of_fmap. eauto.
      * by apply elem_of_list_to_set.
  - rewrite Hcat. apply shuffled_Permutation.
  - intros i Hi.
    assert (i ∈ concat tes) as Hin by (rewrite Hcat; by apply elem_of_shuffled).
    pose proof (count_in_concat tes i Hnd Hin) as Hone.
    split; [done|].
    assert (∀ te, i ∈ setdiff1d a te ↔ i ∉ te) as HF.
    { intros te. rewrite elem_of_setdiff1d. unfold a.
      rewrite elem_of_shuffled. tauto. }
    assert (length tes = Z.to_nat k) as Hlen.
    { unfold tes. by rewrite length_blocks, length_block_sizes. }
    pose proof (count_complements (λ te, setdiff1d a te) tes i HF) as Hco.
    rewrite Hone, Hlen in Hco. lia.
Qed.

Lemma length_concat_sum (ls : list (list Z)) :
  length (concat ls) = sum_list (length <$> ls).
Proof. induction ls as [|l ls IH]; simpl; [done|]. by rewrite length_app, IH. Qed.

Lemma sum_take_block_sizes N k f :
  0 ≤ N → 0 < k → (f ≤ Z.to_nat k)%nat →
  Z.of_nat (sum_list (take f (block_sizes N k))) = block_start N k f.
Proof.
  intros HN Hk Hf. unfold block_sizes, block_start; cbv zeta.
  pose proof (Z.mod_pos_bound N k Hk).
  pose proof (Z.div_pos N k HN Hk).
  rewrite take_app, !take_replicate, length_replicate.
  rewrite sum_list_with_app, !sum_list_replicate.
  destruct (decide (f ≤ Z.to_nat (N `mod` k))%nat).
  - rewrite (Nat.min_l f), Z.min_l by lia.
    replace (f - Z.to_nat (N `mod` k))%nat with 0%nat by lia. simpl. nia.
  - rewrite (Nat.min_r f), Z.min_r, Nat.min_l by lia. nia.
Qed.

Lemma test_fold_block N k g f te :
  0 ≤ N → 0 < k →
  blocks (shuffled g N) 0 (block_sizes N k) !! f = Some te →
  te = take (Z.to_nat (block_size N k f))
         (drop (Z.to_nat (block_start N k f)) (shuffled g N)) ∧
  Z.of_nat (length te) = block_size N k f.
Proof.
  intros HN Hk Hte.
  assert (f < length (block_sizes N k))%nat as Hf.
  { rewrite <-(length_blocks (shuffled g N) 0). by eapply lookup_lt_Some. }
  destruct (lookup_lt_is_Some_2 _ _ Hf) as [n Hn].
  pose proof Hn as [Hfk Hsize]%lookup_block_sizes; [|done..].
  pose proof (length_lookup_blocks (shuffled g N) 0 (block_sizes N k) f te n) as Hlen.
  rewrite length_shuffled in Hlen.
  pose proof (sum_block_sizes N k HN Hk).
  split.
  - rewrite (lookup_blocks _ _ _ _ _ Hn) in Hte. injection Hte as <-.
    rewrite <-Hsize, Nat2Z.id, <-sum_take_block_sizes, Nat2Z.id by (done || lia).
    done.
  - rewrite <-Hsize. f_equal. apply Hlen; [lia|done..].
Qed.

(** C3. The test folds are contiguous blocks of the shuffled order: block
    [f] has [N // n_folds] elements, plus one exactly when
    [f < N % n_folds]; the blocks follow one another and make up the whole
    order, so the sizes add up to [N], and two sizes differ by at most 1. *)
Theorem contiguous_balanced_blocks N k rs h g :
  0 ≤ N → 0 < k → rng_state rs h = Some g →
  ∃ trs tes,
    (make_train_and_test_row_ids_for_n_fold_cv N k rs h).1 = Ok (trs, tes) ∧
    length tes = Z.to_nat k ∧
    concat tes = shuffled g N ∧
    (∀ f te, tes !! f = Some te →
       te = take (Z.to_nat (block_size N k f))
              (drop (Z.to_nat (block_start N k f)) (shuffled g N)) ∧
       Z.of_nat (length te) = block_size N k f) ∧
    Z.of_nat (sum_list (length <$> tes)) = N ∧
    (∀ f1 f2 te1 te2, tes !! f1 = Some te1 → tes !! f2 = Some te2 →
       Z.abs (Z.of_nat (length te1) - Z.of_nat (length te2)) ≤ 1).
Proof.
  intros HN Hk Hg. eexists _, _. split; [by rewrite (run_ok N k rs h g)|].
  split_and!.
  - by rewrite length_blocks, length_block_sizes.
  - by apply concat_test_folds.
  - intros f te. by apply test_fold_block.
  - rewrite <-length_concat_sum, concat_test_folds, length_shuffled by done. lia.
  - intros f1 f2 te1 te2 [_ H1]%test_fold_block [_ H2]%test_fold_block; [|done..].
    rewrite H1, H2. unfold block_size. repeat case_decide; lia.
Qed.

(** C4. With an integer seed the outcome of a call (the two lists of
    arrays, or the exception) does not depend on the heap the call runs
    in, and the call leaves the heap as it found it: two calls with the
    same [(N, n_folds, seed)], one after the other or anywhere else, have
    identical outcomes. *)
Theorem integer_seed_deterministic N k (s : Z) h1 h2 :
  (make_train_and_test_row_ids_for_n_fold_cv N k (PyInt s) h1).1
  = (make_train_and_test_row_ids_for_n_fold_cv N k (PyInt s) h2).1 ∧
  (make_train_and_test_row_ids_for_n_fold_cv N k (PyInt s) h1).2 = h1.
Proof.
  unfold make_train_and_test_row_ids_for_n_fold_cv, mbind, M_bind, mret, M_ret,
    lift, get_random_state, shuffle_with.
  destruct (RandomState s) as [g|]; [|done].
  by destruct (make_fold_sizes N k).
Qed.

(** The fold sizes cannot be built for a fold count that is not positive:
    [N // 0] divides by zero, and [np.full] rejects a negative length. *)
Lemma make_fold_sizes_nonpositive N k :
  k ≤ 0 →
  make_fold_sizes N k
  = Raise (if decide (k = 0) then ZeroDivisionError else ValueError).
Proof.
  intros Hk. unfold make_fold_sizes, floordiv, full.
  case_decide; [done|]. by rewrite decide_True by lia.
Qed.

(** C5. With [n_folds <= 0] the call raises, whatever [random_state] is and
    whatever the heap holds; no lists are returned. *)
Theorem nonpositive_folds_raise N k rs h :
  0 ≤ N → k ≤ 0 →
  ∃ e, (make_train_and_test_row_ids_for_n_fold_cv N k rs h).1 = Raise e.
Proof.
  intros _ Hk.
  unfold make_train_and_test_row_ids_for_n_fold_cv, mbind, M_bind, mret, M_ret,
    lift, get_random_state, shuffle_with.
  rewrite make_fold_sizes_nonpositive by done.
  destruct rs as [s|l].
  - destruct (RandomState s); eauto.
  - destruct (h !! l) as [g|] eqn:Hl; [rewrite Hl|]; eauto.
Qed.

Lemma blocks_nil cur (n : nat) : blocks [] cur (replicate n 0%nat) = replicate n [].
Proof.
  revert cur. induction n as [|n IH]; intros cur; simpl; [done|].
  by rewrite drop_nil, IH.
Qed.

(** C6. One fold: the call returns a single fold whose test array is the
    whole shuffled order and whose train array is empty.  No examples:
    every one of the [n_folds] train and test arrays is empty. *)
Theorem degenerate_inputs N k rs h g :
  0 ≤ N → 0 < k → rng_state rs h = Some g →
  (make_train_and_test_row_ids_for_n_fold_cv N 1 rs h).1
  = Ok ([[]], [shuffled g N]) ∧
  (make_train_and_test_row_ids_for_n_fold_cv 0 k rs h).1
  = Ok (replicate (Z.to_nat k) [], replicate (Z.to_nat k) []).
Proof.
  intros HN Hk Hg. split.
  - rewrite (run_ok N 1 rs h g) by (done || lia).
    unfold block_sizes. rewrite Z.mod_1_r, Z.div_1_r. simpl.
    rewrite drop_0, take_ge by (rewrite length_shuffled; lia).
    by rewrite setdiff1d_self.
  - rewrite (run_ok 0 k rs h g) by (done || lia).
    assert (shuffled g 0 = []) as ->.
    { apply Permutation_nil_r. exact (shuffled_Permutation g 0). }
    unfold block_sizes. rewrite Z.mod_0_l, Z.div_0_l by lia. simpl.
    rewrite Nat.sub_0_r, blocks_nil, fmap_replicate. done.
Qed.

Lemma Sorted_seqZ m n : Sorted Z.le (seqZ m n).
Proof.
  remember (Z.to_nat n) as len eqn:Hlen. revert m n Hlen.
  induction len as [|len IH]; intros m n Hlen.
  - rewrite seqZ_nil by lia. constructor.
  - rewrite seqZ_cons by lia. constructor; [apply IH; lia|].
    destruct (decide (0 < Z.pred n)).
    + rewrite seqZ_cons by lia. constructor. lia.
    + rewrite seqZ_nil by lia. constructor.
Qed.

(** Removing nothing from the shuffled order gives the ids in order. *)
Lemma setdiff1d_shuffled_nil g N : setdiff1d (shuffled g N) [] = seqZ 0 N.
Proof.
  unfold setdiff1d. change (unique []) with (@nil Z). cbv zeta.
  rewrite unique_NoDup by apply NoDup_shuffled.
  transitivity (merge_sort Z.le (shuffled g N)).
  - induction (merge_sort Z.le (shuffled g N)) as [|x l IH]; [done|].
    rewrite filter_cons_True by apply not_elem_of_nil. by f_equal.
  - apply (Sorted_unique Z.le).
    + apply Sorted_merge_sort; apply _.
    + apply Sorted_seqZ.
    + rewrite merge_sort_Permutation. apply shuffled_Permutation.
Qed.

(** C10. More folds than examples ([0 < N < n_folds]): the call returns
    [n_folds] folds; the first [N] test arrays hold one id each, the other
    [n_folds - N] are empty, and the train array of a fold with an empty
    test array is [0, ..., N-1], all the ids. *)
Theorem more_folds_than_examples N k rs h g :
  0 < N → N < k → rng_state rs h = Some g →
  ∃ trs tes,
    (make_train_and_test_row_ids_for_n_fold_cv N k rs h).1 = Ok (trs, tes) ∧
    length trs = Z.to_nat k ∧ length tes = Z.to_nat k ∧
    (∀ f, (f < Z.to_nat N)%nat → ∃ x, tes !! f = Some [x]) ∧
    (∀ f, (Z.to_nat N ≤ f < Z.to_nat k)%nat → tes !! f = Some []) ∧
    (∀ f tr, tes !! f = Some [] → trs !! f = Some tr →
       tr = seqZ 0 N ∧ list_to_set tr = index_set N).
Proof.
  intros HN Hk Hg. eexists _, _.
  split; [by rewrite (run_ok N k rs h g) by (done || lia)|].
  set (tes := blocks (shuffled g N) 0 (block_sizes N k)).
  assert (length tes = Z.to_nat k) as Hlen.
  { unfold tes. rewrite length_blocks, length_block_sizes; lia. }
  assert (∀ f te, tes !! f = Some te →
            Z.of_nat (length te) = if decide (Z.of_nat f < N) then 1 else 0) as Hsz.
  { intros f te [_ Hte]%test_fold_block; [|lia..]. rewrite Hte.
    unfold block_size. rewrite Z.div_small, Z.mod_small by lia. done. }
  split_and!.
  - by rewrite length_fmap.
  - done.
  - intros f Hf.
    destruct (lookup_lt_is_Some_2 tes f) as [te Hte]; [lia|].
    pose proof (Hsz f te Hte) as Hl. rewrite decide_True in Hl by lia.
    destruct te as [|x [|y te]]; simpl in Hl; try lia. eauto.
  - intros f Hf.
    destruct (lookup_lt_is_Some_2 tes f) as [te Hte]; [lia|].
    pose proof (Hsz f te Hte) as Hl. rewrite decide_False in Hl by lia.
    destruct te; simpl in Hl; [done|lia].
  - intros f tr Hte Htr. rewrite list_lookup_fmap, Hte in Htr.
    injection Htr as <-. by rewrite setdiff1d_shuffled_nil.
Qed.

End guarantees.

(** *** The guarantees at concrete inputs, with the small generator *)

Abbreviation run_lcg N k rs h :=
  (make_train_and_test_row_ids_for_n_fold_cv (G := Z) N k rs h).1.

(** The sizes of the docstring's example: 11 examples in 3 folds. *)
Example doctest_fold_sizes :
  match run_lcg 11 3 (PyInt 0) ∅ with
  | Ok (trs, tes) => (length <$> trs, length <$> tes) = ([7; 7; 8], [4; 4; 3])%nat
  | Raise _ => False
  end.
Proof. vm_compute. reflexivity. Qed.

(** A generator object passed twice is advanced by the first call, and the
    second call shuffles differently: determinism is a property of
    integer seeds. *)
Example passed_generator_advances :
  let h : heap Z := {[ 1%positive := 7 ]} in
  let call := make_train_and_test_row_ids_for_n_fold_cv 4 2 (PyRef 1) in
  (call h).1 ≠ (call (call h).2).1.
Proof. vm_compute. discriminate. Qed.

(** With a fold count that is not positive the exception comes from the
    fold sizes, after the shuffle: a generator object that was passed in
    has been advanced by then. *)
Example nonpositive_folds_after_shuffle :
  let h : heap Z := {[ 1%positive := 7 ]} in
  let call := make_train_and_test_row_ids_for_n_fold_cv 4 0 (PyRef 1) in
  (call h).1 = Raise ZeroDivisionError ∧ (call h).2 ≠ h.
Proof. split; [reflexivity|]. vm_compute. discriminate. Qed.

Lemma partition_per_fold_witness :
  ∃ trs tes,
    run_lcg 11 3 (PyInt 0) ∅ = Ok (trs, tes) ∧
    length trs = Z.to_nat 3 ∧ length tes = Z.to_nat 3 ∧
    ∀ f tr te, trs !! f = Some tr → tes !! f = Some te →
      list_to_set tr ∪ list_to_set te = index_set 11 ∧
      list_to_set tr ∩ list_to_set te =@{gset Z} ∅ ∧
      Z.of_nat (length tr) + Z.of_nat (length te) = 11 ∧
      NoDup tr ∧ NoDup te.
Proof.
  apply (partition_per_fold 11 3 (PyInt 0) ∅ 0); [lia | lia | reflexivity].
Defined.

Lemma test_folds_partition_witness :
  ∃ trs tes,
    run_lcg 11 3 (PyRef 1) {[ 1%positive := 42 ]} = Ok (trs, tes) ∧
    (∀ f1 f2 te1 te2, f1 ≠ f2 → tes !! f1 = Some te1 → tes !! f2 = Some te2 →
       list_to_set te1 ∩ list_to_set te2 =@{gset Z} ∅) ∧
    ⋃ (list_to_set <$> tes) = index_set 11 ∧
    concat tes ≡ₚ seqZ 0 11 ∧
    ∀ i, 0 ≤ i < 11 →
      length (filter (λ te, i ∈ te) tes) = 1%nat ∧
      Z.of_nat (length (filter (λ tr, i ∈ tr) trs)) = 3 - 1.
Proof.
  apply (test_folds_partition 11 3 (PyRef 1) {[ 1%positive := 42 ]} 42);
    [lia | lia | reflexivity].
Defined.

Lemma contiguous_balanced_blocks_witness :
  ∃ trs tes,
    run_lcg 11 3 (PyInt 0) ∅ = Ok (trs, tes) ∧
    length tes = Z.to_nat 3 ∧
    concat tes = shuffled 0 11 ∧
    (∀ f te, tes !! f = Some te →
       te = take (Z.to_nat (block_size 11 3 f))
              (drop (Z.to_nat (block_start 11 3 f)) (shuffled 0 11)) ∧
       Z.of_nat (length te) = block_size 11 3 f) ∧
    Z.of_nat (sum_list (length <$> tes)) = 11 ∧
    (∀ f1 f2 te1 te2, tes !! f1 = Some te1 → tes !! f2 = Some te2 →
       Z.abs (Z.of_nat (length te1) - Z.of_nat (length te2)) ≤ 1).
Proof.
  apply (contiguous_balanced_blocks 11 3 (PyInt 0) ∅ 0); [lia | lia | reflexivity].
Defined.

Lemma nonpositive_folds_raise_witness :
  ∃ e, run_lcg 5 (-2) (PyInt 0) ∅ = Raise e.
Proof. apply (nonpositive_folds_raise 5 (-2) (PyInt 0) ∅); lia. Defined.

Lemma degenerate_inputs_witness :
  run_lcg 4 1 (PyInt 5) ∅ = Ok ([[]], [shuffled 5 4]) ∧
  run_lcg 0 3 (PyInt 5) ∅ = Ok (replicate (Z.to_nat 3) [], replicate (Z.to_nat 3) []).
Proof.
  apply (degenerate_inputs 4 3 (PyInt 5) ∅ 5); [lia | lia | reflexivity].
Defined.

Lemma more_folds_than_examples_witness :
  ∃ trs tes,
    run_lcg 2 5 (PyInt 0) ∅ = Ok (trs, tes) ∧
    length trs = Z.to_nat 5 ∧ length tes = Z.to_nat 5 ∧
    (∀ f, (f < Z.to_nat 2)%nat → ∃ x, tes !! f = Some [x]) ∧
    (∀ f, (Z.to_nat 2 ≤ f < Z.to_nat 5)%nat → tes !! f = Some []) ∧
    (∀ f tr, tes !! f = Some [] → trs !! f = Some tr →
       tr = seqZ 0 2 ∧ list_to_set tr = index_set 2).
Proof.
  apply (more_folds_than_examples 2 5 (PyInt 0) ∅ 0); [lia | lia | reflexivity].
Defined.

End Splitter.

(** ** Binary64 rounding *)

Module Rounding.
Import BinaryMetrics Binary64.

(** Comparisons to (in)equalities, then linear arithmetic. *)
Ltac cmp_lia :=
  repeat match goal with
  | H : _ ∧ _ |- _ => destruct H
  | H : (_ ?= _) = Eq |- _ => rewrite Z.compare_eq_iff in H
  | H : (_ ?= _) = Lt |- _ => rewrite Z.compare_lt_iff in H
  | H : (_ ?= _) = Gt |- _ => rewrite Z.compare_gt_iff in H
  | |- _ ∧ _ => split
  | |- (_ ?= _) = Eq => rewrite Z.compare_eq_iff
  | |- (_ ?= _) = Lt => rewrite Z.compare_lt_iff
  | |- (_ ?= _) = Gt => rewrite Z.compare_gt_iff
  end; try lia.

(** The powers of two that bound a mantissa, as numerals. *)
Ltac pow_consts :=
  change (2 ^ 52) with 4503599627370496 in *;
  change (2 ^ 53) with 9007199254740992 in *;
  change (2 ^ 54) with 18014398509481984 in *.

(** *** Digits *)

Lemma digits2_pos_bounds p :
  2 ^ (Z.pos (digits2_pos p) - 1) ≤ Z.pos p < 2 ^ Z.pos (digits2_pos p).
Proof.
  induction p as [p IH|p IH|]; simpl digits2_pos.
  - rewrite Pos2Z.inj_succ.
    replace (Z.succ (Z.pos (digits2_pos p)) - 1)
      with (Z.succ (Z.pos (digits2_pos p) - 1)) by lia.
    rewrite !Z.pow_succ_r by lia. lia.
  - rewrite Pos2Z.inj_succ.
    replace (Z.succ (Z.pos (digits2_pos p)) - 1)
      with (Z.succ (Z.pos (digits2_pos p) - 1)) by lia.
    rewrite !Z.pow_succ_r by lia. lia.
  - simpl. lia.
Qed.

Lemma Zdigits2_bounds m : 0 < m → 2 ^ (Zdigits2 m - 1) ≤ m < 2 ^ Zdigits2 m.
Proof. destruct m as [|p|p]; try lia. intros _. apply digits2_pos_bounds. Qed.

Lemma Zdigits2_pos m : 0 < m → 0 < Zdigits2 m.
Proof. destruct m; simpl; lia. Qed.

Lemma Zdigits2_unique m d : 0 < m → 2 ^ (d - 1) ≤ m < 2 ^ d → Zdigits2 m = d.
Proof.
  intros Hm [Hlo Hhi]. pose proof (Zdigits2_bounds m Hm) as [Hlo' Hhi'].
  pose proof (Zdigits2_pos m Hm).
  assert (0 < d).
  { destruct (decide (0 < d)) as [|Hd]; [done|].
    destruct (decide (d = 0)) as [->|]; [simpl in Hhi; lia|].
    rewrite Z.pow_neg_r in Hhi by lia. lia. }
  destruct (Z.lt_trichotomy (Zdigits2 m) d) as [Hlt|[?|Hgt]]; [|done|].
  - assert (2 ^ Zdigits2 m ≤ 2 ^ (d - 1)) by (apply Z.pow_le_mono_r; lia). lia.
  - assert (2 ^ d ≤ 2 ^ (Zdigits2 m - 1)) by (apply Z.pow_le_mono_r; lia). lia.
Qed.

(** *** Shifting right keeps the exact value located *)

Lemma shr_1_ok N D r : 0 < D → rec_ok N D r → rec_ok N (2 * D) (shr_1 r).
Proof.
  intros HD [Hm Hl]. destruct r as [m rb sb]. simpl in Hm.
  destruct m as [|[p|p|]|p]; [| | | |lia];
    destruct rb, sb; simpl in *; unfold rec_ok, loc_ok in *; simpl; cmp_lia.
Qed.

Lemma shr_1_m r : 0 ≤ shr_m r → shr_m (shr_1 r) = shr_m r / 2.
Proof.
  destruct r as [m rb sb]; simpl. intros Hm.
  destruct m as [|[p|p|]|p]; simpl; try lia; try done.
  - apply (Z.div_unique _ _ _ 1); lia.
  - apply (Z.div_unique _ _ _ 0); lia.
Qed.

Lemma iter_pos_shr_ok p N D r :
  0 < D → rec_ok N D r →
  rec_ok N (D * 2 ^ Z.pos p) (iter_pos shr_1 p r) ∧
  shr_m (iter_pos shr_1 p r) = shr_m r / 2 ^ Z.pos p.
Proof.
  revert D r. induction p as [p IH|p IH|]; intros D r HD Hr; simpl iter_pos.
  - pose proof (shr_1_ok N D r HD Hr) as H1.
    destruct (IH (2 * D) (shr_1 r)) as [H2 E2]; [lia|done|].
    assert (0 < 2 ^ Z.pos p) by (apply Z.pow_pos_nonneg; lia).
    destruct (IH (2 * D * 2 ^ Z.pos p) (iter_pos shr_1 p (shr_1 r))) as [H3 E3]; [lia|done|].
    replace (2 ^ Z.pos p~1) with (2 * 2 ^ Z.pos p * 2 ^ Z.pos p)
      by (replace (Z.pos p~1) with (1 + Z.pos p + Z.pos p) by lia;
          rewrite !Z.pow_add_r, Z.pow_1_r by lia; lia).
    split.
    + by replace (D * (2 * 2 ^ Z.pos p * 2 ^ Z.pos p))
        with (2 * D * 2 ^ Z.pos p * 2 ^ Z.pos p) by lia.
    + rewrite E3, E2, shr_1_m by apply Hr.
      rewrite !Z.div_div by lia. f_equal. lia.
  - destruct (IH D r) as [H2 E2]; [lia|done|].
    assert (0 < 2 ^ Z.pos p) by (apply Z.pow_pos_nonneg; lia).
    destruct (IH (D * 2 ^ Z.pos p) (iter_pos shr_1 p r)) as [H3 E3]; [lia|done|].
    replace (2 ^ Z.pos p~0) with (2 ^ Z.pos p * 2 ^ Z.pos p)
      by (replace (Z.pos p~0) with (Z.pos p + Z.pos p) by lia;
          rewrite !Z.pow_add_r by lia; lia).
    split.
    + by rewrite Z.mul_assoc.
    + rewrite E3, E2. rewrite !Z.div_div by lia. done.
  - change (2 ^ 1) with 2. split.
    + rewrite Z.mul_comm. by apply shr_1_ok.
    + apply shr_1_m, Hr.
Qed.

(** The mantissa and the location are functions of the fraction. *)
Lemma loc_ok_unique N D m l :
  0 < D → loc_ok N D m l → m = N / D ∧ l = loc_of_frac N D.
Proof.
  intros HD Hl. unfold loc_of_frac. destruct l as [|c]; simpl in Hl.
  - subst N. rewrite Z.div_mul, Z.mod_mul by lia. done.
  - destruct Hl as [Hb Hc].
    assert (m = N / D) as Hm by (apply (Z.div_unique _ _ _ (N - m * D)); lia).
    assert (N mod D = N - m * D) as Hr.
    { symmetry. apply (Z.mod_unique _ _ m); lia. }
    split; [done|]. rewrite Hr.
    destruct (Z.eqb_spec (N - m * D) 0); [lia|]. f_equal. rewrite <-Hc.
    destruct (Z.compare_spec (2 * (N - m * D)) D), (Z.compare_spec (2 * N) ((2 * m + 1) * D));
      try done; lia.
Qed.

Lemma shr_spec r e n N D :
  0 ≤ n → 0 < D → rec_ok N D r →
  ∃ r', shr r e n = (r', e + n) ∧ rec_ok N (D * 2 ^ n) r' ∧
        shr_m r' = shr_m r / 2 ^ n.
Proof.
  intros Hn HD Hr. destruct n as [|p|p]; [| |lia].
  - exists r. simpl. rewrite Z.add_0_r, Z.mul_1_r, Z.div_1_r. done.
  - exists (iter_pos shr_1 p r). simpl. split; [done|]. by apply iter_pos_shr_ok.
Qed.

Lemma rne_bounds N D : N / D ≤ rne N D ≤ N / D + 1.
Proof.
  unfold rne, round_nearest_even.
  destruct (loc_of_frac N D) as [|[]]; try lia. destruct (Z.even _); lia.
Qed.

Lemma fexp_normal d : -1074 ≤ d - 53 → fexp prec emax d = d - 53.
Proof. unfold fexp, SpecFloat.emin, prec, emax. lia. Qed.

(** The second normalisation of [binary_round_aux]. *)
Lemma round_finish m2 e1 :
  2 ^ 52 ≤ m2 ≤ 2 ^ 53 → -1074 ≤ e1 → e1 < 971 →
  (let '(mrs, e2) := shr_fexp prec emax m2 e1 loc_Exact in
   match shr_m mrs with
   | Z0 => S754_zero false
   | Z.pos m => if e2 <=? emax - prec then S754_finite false m e2 else S754_infinity false
   | Z.neg _ => S754_nan
   end) = mk_float m2 e1.
Proof.
  intros Hm He1 He2. unfold shr_fexp, mk_float.
  destruct (Z.ltb_spec m2 (2 ^ 53)) as [Hlt|Hge].
  - rewrite (Zdigits2_unique m2 53)
      by (try change (53 - 1) with 52; pow_consts; lia).
    rewrite fexp_normal by lia. replace (53 + e1 - 53 - e1) with 0 by lia.
    simpl shr. destruct m2 as [|p|p]; try lia. simpl.
    rewrite (proj2 (Z.leb_le _ _)) by (unfold emax, prec; lia). done.
  - assert (m2 = 2 ^ 53) as -> by lia.
    rewrite (Zdigits2_unique (2 ^ 53) 54)
      by (try change (54 - 1) with 53; pow_consts; lia).
    rewrite fexp_normal by lia. replace (54 + e1 - 53 - e1) with 1 by lia.
    simpl. rewrite (proj2 (Z.leb_le _ _)) by (unfold emax, prec; lia). done.
Qed.

(** *** Rounding in the normal range

    A mantissa of at least 53 bits that locates [N / D] is rounded to the
    nearest 53-bit mantissa of [N / (D * 2^n)], where [n] is the number of
    bits dropped. *)
Lemma binary_round_aux_normal m e l N D :
  0 < D → 0 < m → loc_ok N D m l →
  53 ≤ Zdigits2 m → -1074 ≤ e + Zdigits2 m - 53 → e + Zdigits2 m - 53 < 971 →
  binary_round_aux prec emax false m e l
  = mk_float (rne N (D * 2 ^ (Zdigits2 m - 53))) (e + Zdigits2 m - 53) ∧
  2 ^ 52 ≤ N / (D * 2 ^ (Zdigits2 m - 53)) < 2 ^ 53.
Proof.
  intros HD Hm Hl Hdg Hlo Hhi. set (dg := Zdigits2 m) in *.
  unfold binary_round_aux, shr_fexp. fold dg.
  rewrite fexp_normal by lia. replace (dg + e - 53 - e) with (dg - 53) by lia.
  destruct (shr_spec (shr_record_of_loc m l) e (dg - 53) N D)
    as (r1 & -> & [_ Hr1] & Hm1); [lia|done| |].
  { split; destruct l as [|[]]; simpl; try lia; done. }
  assert (shr_m (shr_record_of_loc m l) = m) as Hsm by (by destruct l as [|[]]).
  rewrite Hsm in Hm1.
  assert (0 < 2 ^ (dg - 53)) as Hpow by (apply Z.pow_pos_nonneg; lia).
  assert (0 < D * 2 ^ (dg - 53)) as HD' by (apply Z.mul_pos_pos; lia).
  destruct (loc_ok_unique _ _ _ _ HD' Hr1) as [Hq Hloc].
  pose proof (Zdigits2_bounds m Hm) as [Hb1 Hb2]. fold dg in Hb1, Hb2.
  assert (2 ^ 52 ≤ shr_m r1 < 2 ^ 53) as Hrange.
  { rewrite Hm1. split.
    - apply Z.div_le_lower_bound; [lia|].
      rewrite <-Z.pow_add_r by lia. by replace (dg - 53 + 52) with (dg - 1) by lia.
    - apply Z.div_lt_upper_bound; [lia|].
      rewrite <-Z.pow_add_r by lia. by replace (dg - 53 + 53) with dg by lia. }
  assert (round_nearest_even (shr_m r1) (loc_of_shr_record r1)
          = rne N (D * 2 ^ (dg - 53))) as ->.
  { unfold rne. by rewrite Hloc, Hq. }
  pose proof (rne_bounds N (D * 2 ^ (dg - 53))) as Hrne. rewrite <-Hq in Hrne.
  replace (e + (dg - 53)) with (e + dg - 53) by lia.
  split; [|by rewrite <-Hq].
  apply round_finish; lia.
Qed.

(** *** Rounding to nearest on a grid *)

Lemma rne_cases N D :
  0 < D →
  let q := N / D in let r := N mod D in
  N = D * q + r ∧ 0 ≤ r < D ∧
  ((r = 0 ∧ rne N D = q) ∨
   (0 < r ∧ 2 * r < D ∧ rne N D = q) ∨
   (2 * r = D ∧ rne N D = if Z.even q then q else q + 1) ∨
   (D < 2 * r ∧ rne N D = q + 1)).
Proof.
  intros HD q r. pose proof (Z.div_mod N D ltac:(lia)).
  pose proof (Z.mod_pos_bound N D HD). fold q r in H, H0.
  split; [done|]. split; [done|].
  unfold rne, loc_of_frac, round_nearest_even. fold q r.
  destruct (Z.eqb_spec r 0); [by left|].
  destruct (Z.compare_spec (2 * r) D); [right; right; left|right; left|right; right; right];
    repeat split; (done || lia).
Qed.

Lemma rne_le_grid N D c : 0 < D → N ≤ c * D → rne N D ≤ c.
Proof.
  intros HD Hc. destruct (rne_cases N D HD) as (HN & Hr & Hcase).
  assert (N / D ≤ c) by (apply Z.div_le_upper_bound; lia).
  destruct (decide (N / D = c)) as [Heq|Hne].
  - assert (N mod D = 0) by nia.
    destruct Hcase as [[_ ->]|[(? & _)|[(? & _)|(? & _)]]]; lia.
  - pose proof (rne_bounds N D) as Hb. lia.
Qed.

Lemma rne_ge_grid N D c : 0 < D → c * D ≤ N → c ≤ rne N D.
Proof.
  intros HD Hc. pose proof (rne_bounds N D) as Hb.
  assert (c ≤ N / D) by (apply Z.div_le_lower_bound; lia). lia.
Qed.

Lemma rne_mono N1 N2 D : 0 < D → N1 ≤ N2 → rne N1 D ≤ rne N2 D.
Proof.
  intros HD HN.
  destruct (rne_cases N1 D HD) as (E1 & Hr1 & Hc1).
  destruct (rne_cases N2 D HD) as (E2 & Hr2 & Hc2).
  pose proof (rne_bounds N1 D) as Hb1. pose proof (rne_bounds N2 D) as Hb2.
  assert (N1 / D ≤ N2 / D) as Hq by (apply Z.div_le_mono; lia).
  destruct (decide (N1 / D = N2 / D)) as [Heq|Hne]; [|lia].
  rewrite Heq in *. assert (N1 mod D ≤ N2 mod D) as Hr by lia.
  destruct Hc1 as [[? ->]|[(? & ? & ->)|[(? & ->)|(? & ->)]]];
    destruct Hc2 as [[? ->]|[(? & ? & ->)|[(? & ->)|(? & ->)]]];
    try destruct (Z.even _); lia.
Qed.

(** *** Order of floats *)

Lemma SFleb_finite m1 e1 m2 e2 :
  lex_le (Z.pos m1) e1 (Z.pos m2) e2 →
  SFleb (S754_finite false m1 e1) (S754_finite false m2 e2) = true.
Proof.
  unfold lex_le, SFleb, SFcompare. intros Hle.
  destruct (Z.compare_spec e1 e2); [|done|lia].
  change (Pos.compare_cont Eq m1 m2) with (m1 ?= m2)%positive.
  destruct (Pos.compare_spec m1 m2); try done. lia.
Qed.

(** *** Alignment and normalisation *)

Lemma iter_xO m d : Z.pos (Pos.iter xO m d) = Z.pos m * 2 ^ Z.pos d.
Proof.
  induction d as [|d IH] using Pos.peano_ind.
  - simpl. lia.
  - rewrite Pos.iter_succ, Pos2Z.inj_succ, Z.pow_succ_r, Pos2Z.inj_xO, IH by lia. lia.
Qed.

Lemma shl_align_le mx ex ex' :
  ex' ≤ ex →
  ∃ mz, shl_align mx ex ex' = (mz, ex') ∧ Z.pos mz = Z.pos mx * 2 ^ (ex - ex').
Proof.
  intros Hle. unfold shl_align. destruct (ex' - ex) as [|d|d] eqn:E; [|lia|].
  - exists mx. assert (ex' = ex) as -> by lia. rewrite Z.sub_diag. simpl. split; [done|lia].
  - exists (Pos.iter xO mx d). split; [done|].
    rewrite iter_xO. f_equal. f_equal. lia.
Qed.

Lemma shl_align_ge mx ex ex' : ex ≤ ex' → shl_align mx ex ex' = (mx, ex).
Proof.
  intros Hle. unfold shl_align. destruct (ex' - ex) as [|d|d] eqn:E; [done..|lia].
Qed.

(** Normalising a positive integer mantissa. *)
Lemma binary_normalize_pos M e :
  0 < M → -1074 ≤ e + Zdigits2 M - 53 → e + Zdigits2 M - 53 < 971 →
  binary_normalize prec emax M e false = mk_float (rounded_m M) (e + Zdigits2 M - 53) ∧
  2 ^ 52 ≤ rounded_m M ≤ 2 ^ 53.
Proof.
  intros HM Hlo Hhi. destruct M as [|p|p]; try lia.
  unfold binary_normalize, binary_round, rounded_m.
  change (Z.pos (digits2_pos p)) with (Zdigits2 (Z.pos p)).
  set (dg := Zdigits2 (Z.pos p)) in *.
  pose proof (Zdigits2_bounds (Z.pos p) HM) as [Hb1 Hb2]. fold dg in Hb1, Hb2.
  pose proof (Zdigits2_pos (Z.pos p) HM). fold dg in H.
  rewrite fexp_normal by lia.
  destruct (decide (dg ≤ 53)) as [Hsmall|Hbig].
  - destruct (shl_align_le p e (dg + e - 53)) as (mz & -> & Hmz); [lia|].
    replace (e - (dg + e - 53)) with (53 - dg) in Hmz by lia.
    rewrite (Z.max_r 0 (53 - dg)), (Z.max_l 0 (dg - 53)) by lia. rewrite <-Hmz.
    assert (2 ^ 52 ≤ Z.pos mz < 2 ^ 53) as Hr.
    { assert (2 ^ 52 = 2 ^ (dg - 1) * 2 ^ (53 - dg)) as ->
        by (rewrite <-Z.pow_add_r by lia; f_equal; lia).
      assert (2 ^ 53 = 2 ^ dg * 2 ^ (53 - dg)) as ->
        by (rewrite <-Z.pow_add_r by lia; f_equal; lia).
      assert (0 < 2 ^ (53 - dg)) by (apply Z.pow_pos_nonneg; lia).
      rewrite Hmz. nia. }
    assert (Zdigits2 (Z.pos mz) = 53) as Hdz.
    { apply Zdigits2_unique; [lia|]. change (53 - 1) with 52. done. }
    destruct (binary_round_aux_normal (Z.pos mz) (dg + e - 53) loc_Exact (Z.pos mz) 1)
      as [-> Hq]; rewrite ?Hdz; simpl loc_ok; try lia.
    rewrite Hdz in Hq. change (1 * 2 ^ (53 - 53)) with (2 ^ 0) in *.
    replace (dg + e - 53 + 53 - 53) with (e + dg - 53) by lia.
    split; [done|]. pose proof (rne_bounds (Z.pos mz) (2 ^ 0)). lia.
  - rewrite shl_align_ge by lia.
    rewrite (Z.max_l 0 (53 - dg)), (Z.max_r 0 (dg - 53)) by lia. rewrite Z.mul_1_r.
    destruct (binary_round_aux_normal (Z.pos p) e loc_Exact (Z.pos p) 1)
      as [-> Hq]; fold dg; simpl loc_ok; try lia.
    rewrite Z.mul_1_l in *.
    split; [done|]. pose proof (rne_bounds (Z.pos p) (2 ^ (dg - 53))).
    fold dg in Hq. lia.
Qed.

Lemma Zdigits2_le m k : 0 < m → m < 2 ^ k → Zdigits2 m ≤ k.
Proof.
  intros Hm Hk. pose proof (Zdigits2_bounds m Hm) as [Hlo _].
  pose proof (Zdigits2_pos m Hm).
  destruct (decide (Zdigits2 m ≤ k)) as [|Hgt]; [done|exfalso].
  assert (2 ^ k ≤ 2 ^ (Zdigits2 m - 1)); [|lia].
  destruct (decide (0 ≤ k)); [apply Z.pow_le_mono_r; lia|].
  rewrite (Z.pow_neg_r 2 k) by lia. apply Z.pow_nonneg. lia.
Qed.

Lemma Zdigits2_ge m k : 2 ^ k ≤ m → 0 ≤ k → k + 1 ≤ Zdigits2 m.
Proof.
  intros Hk Hk0. assert (0 < m) as Hm by (pose proof (Z.pow_pos_nonneg 2 k); lia).
  pose proof (Zdigits2_bounds m Hm) as [_ Hhi].
  destruct (decide (k + 1 ≤ Zdigits2 m)) as [|Hgt]; [done|exfalso].
  pose proof (Zdigits2_pos m Hm).
  assert (2 ^ Zdigits2 m ≤ 2 ^ k) by (apply Z.pow_le_mono_r; lia). lia.
Qed.

Lemma mk_float_is m2 e1 :
  2 ^ 52 ≤ m2 ≤ 2 ^ 53 →
  ∃ m e, is_float (mk_float m2 e1) m e ∧
    ((m2 < 2 ^ 53 ∧ m = m2 ∧ e = e1) ∨ (m2 = 2 ^ 53 ∧ m = 2 ^ 52 ∧ e = e1 + 1)).
Proof.
  intros Hm. unfold mk_float, is_float, pos53. destruct (Z.ltb_spec m2 (2 ^ 53)).
  - exists m2, e1. split; [split; [done|lia]|]. left. lia.
  - exists (2 ^ 52), (e1 + 1). split; [split; [done|pow_consts; lia]|]. right. lia.
Qed.

Lemma is_float_leb x y mx ex my ey :
  is_float x mx ex → is_float y my ey → lex_le mx ex my ey → SFleb x y = true.
Proof.
  intros [-> Hx] [-> Hy] Hle. apply SFleb_finite.
  unfold pos53 in *. pow_consts. rewrite !Z2Pos.id by lia. done.
Qed.

(** *** Conversion of integers is monotone *)

Lemma int_float_mono t s :
  0 < t → t ≤ s → s < 2 ^ 63 →
  ∃ mt et ms es,
    is_float (binary_normalize prec emax t 0 false) mt et ∧
    is_float (binary_normalize prec emax s 0 false) ms es ∧
    lex_le mt et ms es ∧ -52 ≤ et ∧ es ≤ 11.
Proof.
  intros Ht Hts Hs.
  pose proof (Zdigits2_pos t Ht) as Hdt0.
  pose proof (Zdigits2_le s 63 ltac:(lia) Hs) as Hds.
  assert (Zdigits2 t ≤ Zdigits2 s) as Hdd.
  { apply Zdigits2_le; [done|]. pose proof (Zdigits2_bounds s ltac:(lia)). lia. }
  destruct (binary_normalize_pos t 0) as [-> Hrt]; [lia..|].
  destruct (binary_normalize_pos s 0) as [-> Hrs]; [lia..|].
  destruct (mk_float_is (rounded_m t) (0 + Zdigits2 t - 53) Hrt) as (mt & et & Hft & Hct).
  destruct (mk_float_is (rounded_m s) (0 + Zdigits2 s - 53) Hrs) as (ms & es & Hfs & Hcs).
  exists mt, et, ms, es. split; [done|]. split; [done|].
  assert (Zdigits2 t = Zdigits2 s → rounded_m t ≤ rounded_m s) as Hmono.
  { intros E. unfold rounded_m. rewrite E. apply rne_mono.
    - apply Z.pow_pos_nonneg; lia.
    - apply Z.mul_le_mono_nonneg_r; [apply Z.pow_nonneg|]; lia. }
  unfold lex_le. pow_consts.
  destruct (decide (Zdigits2 t = Zdigits2 s)) as [E|NE]; [specialize (Hmono E)|]; lia.
Qed.

(** *** Adding [1e-10] does not decrease a positive float *)

Example eps_spec : Prim2SF eps = S754_finite false eps_m eps_e.
Proof. reflexivity. Qed.

Lemma add_eps m e :
  pos53 m → -86 ≤ e → e ≤ 800 →
  ∃ md ed,
    is_float (SFadd prec emax (S754_finite false (Z.to_pos m) e)
                (S754_finite false eps_m eps_e)) md ed ∧
    lex_le m e md ed ∧ ed ≤ e + 2.
Proof.
  intros Hm Hlo Hhi. unfold pos53 in Hm. unfold SFadd, eps_e.
  rewrite Z.min_r by lia.
  destruct (shl_align_le (Z.to_pos m) e (-86)) as (mz & -> & Hmz); [lia|].
  rewrite (shl_align_ge eps_m (-86) (-86)) by lia.
  cbn [fst cond_Zopp]. rewrite Z2Pos.id in Hmz by (pow_consts; lia).
  replace (e - -86) with (e + 86) in Hmz by lia.
  set (M := Z.pos mz + Z.pos eps_m).
  assert (0 < 2 ^ (e + 86)) as Hpow by (apply Z.pow_pos_nonneg; lia).
  assert (Z.pos eps_m < 2 ^ 53) as Heps by (pow_consts; unfold eps_m; lia).
  assert (2 ^ (52 + (e + 86)) ≤ M < 2 ^ (54 + (e + 86))) as HM.
  { rewrite (Z.pow_add_r 2 52), (Z.pow_add_r 2 54) by lia. unfold M. rewrite Hmz.
    pow_consts. set (P := 2 ^ (e + 86)) in *.
    assert (4503599627370496 * P ≤ m * P) by (apply Z.mul_le_mono_nonneg_r; lia).
    assert (m * P ≤ 9007199254740991 * P) by (apply Z.mul_le_mono_nonneg_r; lia).
    lia. }
  assert (0 < M) as HM0 by lia.
  pose proof (Zdigits2_ge M (52 + (e + 86)) ltac:(lia) ltac:(lia)) as Hd1.
  pose proof (Zdigits2_le M (54 + (e + 86)) HM0 ltac:(lia)) as Hd2.
  destruct (binary_normalize_pos M (-86)) as [-> Hr]; [lia..|].
  destruct (mk_float_is (rounded_m M) (-86 + Zdigits2 M - 53) Hr) as (md & ed & Hf & Hc).
  exists md, ed. split; [done|].
  assert (Zdigits2 M = 53 + (e + 86) → m ≤ rounded_m M) as Hge.
  { intros E. unfold rounded_m. rewrite E.
    rewrite (Z.max_l 0 (53 - _)), (Z.max_r 0 (_ - 53)), Z.mul_1_r by lia.
    apply rne_ge_grid; [apply Z.pow_pos_nonneg; lia|].
    replace (53 + (e + 86) - 53) with (e + 86) by lia. unfold M. lia. }
  unfold lex_le. pow_consts.
  destruct (decide (Zdigits2 M = 53 + (e + 86))) as [E|NE]; [specialize (Hge E)|]; lia.
Qed.

(** *** A float divided by a float that is not smaller is at most 1 *)

Lemma new_location_ok D r q N :
  0 < D → N = D * q + r → 0 ≤ r < D → loc_ok N D q (new_location D r).
Proof.
  intros HD HN Hr. unfold new_location, new_location_even, new_location_odd.
  destruct (Z.even D) eqn:Hev; destruct (Z.eqb_spec r 0); simpl; try lia.
  - destruct (Z.compare_spec (2 * r) D); cmp_lia.
  - assert (Z.odd D = true) as Hodd by (by rewrite <-Z.negb_even, Hev).
    apply Z.odd_spec in Hodd. destruct Hodd as [j ->].
    destruct (Z.compare_spec (2 * r + 1) (2 * j + 1)); cmp_lia.
Qed.

Lemma div_le_one mt et md ed :
  pos53 mt → pos53 md → lex_le mt et md ed → -1000 ≤ et - ed →
  ∃ mq eq,
    is_float (SFdiv prec emax (S754_finite false (Z.to_pos mt) et)
                (S754_finite false (Z.to_pos md) ed)) mq eq ∧
    lex_le mq eq (2 ^ 52) (-52).
Proof.
  intros Ht Hd Hle Hlo. unfold pos53 in *.
  assert (0 < mt ∧ 0 < md) as [Ht0 Hd0] by (pow_consts; lia).
  unfold SFdiv, SFdiv_core_binary. rewrite !Z2Pos.id by lia.
  rewrite (Zdigits2_unique mt 53), (Zdigits2_unique md 53)
    by (try change (53 - 1) with 52; lia).
  assert (et ≤ ed) as Hee by (unfold lex_le in Hle; lia).
  replace (53 + et - (53 + ed)) with (et - ed) by lia.
  rewrite fexp_normal by lia. rewrite Z.min_l by lia.
  replace (et - ed - (et - ed - 53)) with 53 by lia.
  rewrite Z.shiftl_mul_pow2 by lia.
  set (N := mt * 2 ^ 53).
  pose proof (Z.div_mod N md ltac:(lia)) as Hdm.
  pose proof (Z.mod_pos_bound N md Hd0) as Hmod.
  unfold Z.div, Z.modulo in Hdm, Hmod.
  destruct (Z.div_eucl N md) as [q r] eqn:Hqr. simpl in Hdm, Hmod.
  pose proof (new_location_ok md r q N Hd0 Hdm Hmod) as Hloc.
  assert (2 ^ 52 ≤ q < 2 ^ 54) as Hq.
  { unfold N in Hdm. pow_consts. nia. }
  pose proof (Zdigits2_ge q 52 ltac:(lia) ltac:(lia)) as Hd1.
  pose proof (Zdigits2_le q 54 ltac:(pow_consts; lia) ltac:(lia)) as Hd2.
  cbn [xorb].
  destruct (binary_round_aux_normal q (et - ed - 53) (new_location md r) N md)
    as [-> Hrange]; [lia|pow_consts; lia|done|lia..|].
  set (n := Zdigits2 q - 53) in *.
  assert (0 < md * 2 ^ n) as HD'.
  { apply Z.mul_pos_pos; [lia|apply Z.pow_pos_nonneg; lia]. }
  pose proof (rne_bounds N (md * 2 ^ n)) as Hb.
  destruct (mk_float_is (rne N (md * 2 ^ n)) (et - ed - 53 + Zdigits2 q - 53))
    as (mq & eq & Hf & Hc); [lia|].
  exists mq, eq. split; [done|].
  assert (et = ed → n = 1 → rne N (md * 2 ^ n) ≤ 2 ^ 52) as Hone.
  { intros E1 E2. apply rne_le_grid; [done|]. rewrite E2.
    unfold N. unfold lex_le in Hle. pow_consts. lia. }
  unfold lex_le in *. pow_consts.
  destruct (decide (et = ed)) as [E|NE]; [|lia].
  destruct (decide (n = 1)) as [E'|NE']; [specialize (Hone E E')|]; lia.
Qed.

(** *** Primitive floats *)

Lemma is_float_valid x m e :
  is_float x m e → -1074 ≤ e → e ≤ 971 → valid_binary x = true.
Proof.
  intros [-> Hm] Hlo Hhi. unfold pos53 in Hm.
  unfold SpecFloat.valid_binary, bounded, canonical_mantissa.
  change (Z.pos (digits2_pos (Z.to_pos m))) with (Zdigits2 (Z.pos (Z.to_pos m))).
  rewrite Z2Pos.id by (pow_consts; lia).
  rewrite (Zdigits2_unique m 53) by (try change (53 - 1) with 52; pow_consts; lia).
  rewrite fexp_normal by lia. replace (53 + e - 53) with e by lia.
  rewrite Z.eqb_refl. simpl. apply Z.leb_le. unfold emax, prec. lia.
Qed.

(** On machine-size integers [to_float] is the conversion primitive. *)
Lemma to_float_of_uint63 z :
  0 ≤ z < 2 ^ 63 → to_float z = of_uint63 (Uint63.of_Z z).
Proof.
  intros Hz. unfold to_float.
  rewrite <-(SF2Prim_Prim2SF (of_uint63 (Uint63.of_Z z))), of_uint63_spec.
  rewrite Uint63.of_Z_spec, Z.mod_small; [done|]. exact Hz.
Qed.

Lemma lex_le_trans m1 e1 m2 e2 m3 e3 :
  lex_le m1 e1 m2 e2 → lex_le m2 e2 m3 e3 → lex_le m1 e1 m3 e3.
Proof. unfold lex_le. lia. Qed.

(** For two integers [0 <= t <= s] of machine size, the double expression
    [t / (s + 1e-10)] involves no overflow and no zero divisor, and its
    value lies in [[0, 1]]. *)
Lemma ratio_in_unit t s :
  0 ≤ t → t ≤ s → s < 2 ^ 63 →
  let d := (to_float s + eps)%float in
  let q := (to_float t / d)%float in
  (∀ sg, binary_normalize prec emax s 0 false ≠ S754_infinity sg) ∧
  (∀ sg, binary_normalize prec emax t 0 false ≠ S754_infinity sg) ∧
  (d =? 0)%float = false ∧ in_unit q.
Proof.
  intros Ht Hts Hs d q.
  destruct (decide (s = 0)) as [->|Hs0].
  { assert (t = 0) as -> by lia. by vm_compute. }
  destruct (int_float_mono s s) as (ms0 & es0 & ms & es & _ & Hfs & Hle0 & Hes1 & Hes2);
    [lia..|].
  assert (-52 ≤ es) as Hes3 by (unfold lex_le in Hle0; lia).
  destruct (add_eps ms es) as (md & ed & Hfd & Hsd & Hed); [apply Hfs|lia..|].
  assert (Prim2SF d = S754_finite false (Z.to_pos md) ed) as Hd.
  { unfold d, to_float. rewrite add_spec.
    rewrite Prim2SF_SF2Prim by (eapply is_float_valid; [done|lia..]).
    destruct Hfs as [-> _]. apply Hfd. }
  assert ((d =? 0)%float = false) as Hnz by (by rewrite eqb_spec, Hd).
  split; [intros sg; destruct Hfs as [-> _]; done|].
  destruct (decide (t = 0)) as [->|Ht0].
  { split; [done|]. split; [done|]. unfold in_unit, q.
    rewrite !leb_spec, div_spec, Hd. done. }
  destruct (int_float_mono t s) as (mt & et & ms' & es' & Hft & Hfs' & Hts' & Het & _);
    [lia..|].
  assert (ms' = ms ∧ es' = es) as [-> ->].
  { destruct Hfs as [E1 H1], Hfs' as [E2 H2]. rewrite E1 in E2.
    injection E2 as E2 ->. split; [|done].
    unfold pos53 in *. pow_consts. apply Z2Pos.inj in E2; lia. }
  split; [intros sg; destruct Hft as [-> _]; done|]. split; [done|].
  assert (et ≤ es) as Hets by (unfold lex_le in Hts'; lia).
  destruct (div_le_one mt et md ed) as (mq & eq & Hfq & Hq1);
    [apply Hft|apply Hfd|by eapply lex_le_trans|lia|].
  assert (Prim2SF q = S754_finite false (Z.to_pos mq) eq) as Hq.
  { unfold q, to_float. rewrite div_spec, Hd.
    rewrite Prim2SF_SF2Prim by (eapply is_float_valid; [done|lia..]).
    destruct Hft as [-> _]. apply Hfq. }
  unfold in_unit. rewrite !leb_spec, Hq. split; [done|].
  eapply is_float_leb; [by split; [|apply Hfq]| |done].
  by vm_compute.
Qed.

End Rounding.

(** ** The confusion counts and the metrics *)

Module Confusion.
Import BinaryMetrics.

(** The example of the docstring. *)
Example calc_TP_TN_FP_FN_doctest :
  calc_TP_TN_FP_FN [0; 0; 0; 0; 1; 1; 1; 1] [0; 0; 1; 0; 1; 1; 0; 0]
  = Ok (2, 3, 1, 2).
Proof. reflexivity. Qed.

Lemma binary_int32 v : binary v → int32 v.
Proof. intros [-> | ->]; split; by vm_compute. Qed.

Lemma asarray_int32_in_range y : Forall int32 y → asarray_int32 y = Ok y.
Proof. intros Hy. unfold asarray_int32. by rewrite decide_True. Qed.

Lemma asarray_int32_binary y : Forall binary y → asarray_int32 y = Ok y.
Proof.
  intros Hy. apply asarray_int32_in_range.
  eapply Forall_impl; [exact Hy|]. apply binary_int32.
Qed.

(** A label that does not fit in 32 bits is rejected before the shapes are
    compared. *)
Example cast_before_assert :
  calc_TP_TN_FP_FN [2147483648] [1; 0] = Raise OverflowError.
Proof. reflexivity. Qed.

(** The only way the cast fails. *)
Lemma asarray_int32_cases y :
  asarray_int32 y = Ok y ∨ asarray_int32 y = Raise OverflowError.
Proof. unfold asarray_int32. case_decide; auto. Qed.

(** Different lengths: either a cast raises, or the assertion fails. *)
Lemma mismatch_raises ytrue yhat :
  length ytrue ≠ length yhat →
  ∃ e, calc_TP_TN_FP_FN ytrue yhat = Raise e ∧
       (Forall int32 ytrue → Forall int32 yhat → e = AssertionError).
Proof.
  intros Hlen. unfold calc_TP_TN_FP_FN, asarray_int32.
  destruct (decide (Forall int32 ytrue)) as [Ht|Ht]; cbn [mbind result_bind].
  - destruct (decide (Forall int32 yhat)) as [Hp|Hp]; cbn [mbind result_bind].
    + rewrite decide_False by done. by exists AssertionError.
    + by exists OverflowError.
  - by exists OverflowError.
Qed.

Lemma count_pairs_cons t p v w ytrue yhat :
  count_pairs t p (v :: ytrue) (w :: yhat)
  = (if decide ((v, w) = (t, p)) then 1 else 0) + count_pairs t p ytrue yhat.
Proof.
  unfold count_pairs. simpl. rewrite filter_cons.
  case_decide; simpl; lia.
Qed.

Lemma count_pairs_nonneg t p ytrue yhat : 0 ≤ count_pairs t p ytrue yhat.
Proof. unfold count_pairs. lia. Qed.

(** The four sums count the four kinds of position. *)
Lemma sums_count ytrue yhat :
  Forall binary ytrue → Forall binary yhat → length ytrue = length yhat →
  Np.sum (and_ ytrue yhat) = count_pairs 1 1 ytrue yhat ∧
  Np.sum (and_ (one_minus ytrue) (one_minus yhat)) = count_pairs 0 0 ytrue yhat ∧
  Np.sum (and_ (one_minus ytrue) yhat) = count_pairs 0 1 ytrue yhat ∧
  Np.sum (and_ ytrue (one_minus yhat)) = count_pairs 1 0 ytrue yhat.
Proof.
  intros Ht. revert yhat.
  induction Ht as [|v ytrue Hv _ IH]; intros [|w yhat] Hp Hlen;
    simplify_eq/=; [done|].
  apply Forall_cons in Hp as [Hw Hp].
  destruct (IH yhat Hp ltac:(done)) as (IH1 & IH2 & IH3 & IH4).
  unfold and_, one_minus, Np.sum in *. rewrite !count_pairs_cons.
  rewrite IH1, IH2, IH3, IH4.
  by destruct Hv as [-> | ->], Hw as [-> | ->].
Qed.

Lemma count_pairs_total ytrue yhat :
  Forall binary ytrue → Forall binary yhat → length ytrue = length yhat →
  count_pairs 1 1 ytrue yhat + count_pairs 0 0 ytrue yhat
  + count_pairs 0 1 ytrue yhat + count_pairs 1 0 ytrue yhat
  = Z.of_nat (length ytrue).
Proof.
  intros Ht. revert yhat.
  induction Ht as [|v ytrue Hv _ IH]; intros [|w yhat] Hp Hlen;
    simplify_eq/=; [done|].
  apply Forall_cons in Hp as [Hw Hp]. specialize (IH yhat Hp ltac:(done)).
  rewrite !count_pairs_cons.
  destruct Hv as [-> | ->], Hw as [-> | ->];
    repeat case_decide; simplify_eq; lia.
Qed.

(** C7. On two sequences of the same length with entries in [{0, 1}] the
    function returns four non-negative integers: TP counts the positions
    with true 1 and predicted 1, TN those with 0 and 0, FP those with 0
    and 1, FN those with 1 and 0, and the four add up to the length. *)
Theorem confusion_counts ytrue yhat :
  length ytrue = length yhat → Forall binary ytrue → Forall binary yhat →
  ∃ TP TN FP FN,
    calc_TP_TN_FP_FN ytrue yhat = Ok (TP, TN, FP, FN) ∧
    TP = count_pairs 1 1 ytrue yhat ∧
    TN = count_pairs 0 0 ytrue yhat ∧
    FP = count_pairs 0 1 ytrue yhat ∧
    FN = count_pairs 1 0 ytrue yhat ∧
    0 ≤ TP ∧ 0 ≤ TN ∧ 0 ≤ FP ∧ 0 ≤ FN ∧
    TP + TN + FP + FN = Z.of_nat (length ytrue).
Proof.
  intros Hlen Ht Hp. unfold calc_TP_TN_FP_FN.
  rewrite !asarray_int32_binary by done. cbn [mbind result_bind].
  rewrite decide_True by done.
  destruct (sums_count ytrue yhat Ht Hp Hlen) as (-> & -> & -> & ->).
  do 4 eexists. split; [done|].
  split_and!; try done; try apply count_pairs_nonneg.
  by apply count_pairs_total.
Qed.

(** C8. On two sequences of different lengths the function raises and
    returns no counts, for every input: the assertion on the shapes
    fails (AssertionError) when all labels fit in 32 bits, and a cast has
    raised before it otherwise. *)
Theorem length_mismatch_raises ytrue yhat :
  length ytrue ≠ length yhat →
  (∃ e, calc_TP_TN_FP_FN ytrue yhat = Raise e) ∧
  (∀ counts, calc_TP_TN_FP_FN ytrue yhat ≠ Ok counts) ∧
  (Forall int32 ytrue → Forall int32 yhat →
   calc_TP_TN_FP_FN ytrue yhat = Raise AssertionError).
Proof.
  intros Hlen. destruct (mismatch_raises ytrue yhat Hlen) as (e & He & Hassert).
  split; [by exists e|]. split; [intros counts; by rewrite He|].
  intros Ht Hp. by rewrite He, (Hassert Ht Hp).
Qed.

Lemma confusion_counts_witness :
  ∃ TP TN FP FN,
    calc_TP_TN_FP_FN [0; 0; 0; 0; 1; 1; 1; 1] [0; 0; 1; 0; 1; 1; 0; 0]
    = Ok (TP, TN, FP, FN) ∧
    TP = count_pairs 1 1 [0; 0; 0; 0; 1; 1; 1; 1] [0; 0; 1; 0; 1; 1; 0; 0] ∧
    TN = count_pairs 0 0 [0; 0; 0; 0; 1; 1; 1; 1] [0; 0; 1; 0; 1; 1; 0; 0] ∧
    FP = count_pairs 0 1 [0; 0; 0; 0; 1; 1; 1; 1] [0; 0; 1; 0; 1; 1; 0; 0] ∧
    FN = count_pairs 1 0 [0; 0; 0; 0; 1; 1; 1; 1] [0; 0; 1; 0; 1; 1; 0; 0] ∧
    0 ≤ TP ∧ 0 ≤ TN ∧ 0 ≤ FP ∧ 0 ≤ FN ∧
    TP + TN + FP + FN = Z.of_nat (length [0; 0; 0; 0; 1; 1; 1; 1]).
Proof.
  apply (confusion_counts [0; 0; 0; 0; 1; 1; 1; 1] [0; 0; 1; 0; 1; 1; 0; 0]);
    [reflexivity | |]; repeat (constructor; [unfold binary; lia|]); constructor.
Defined.

Lemma length_mismatch_raises_witness :
  (∃ e, calc_TP_TN_FP_FN [1] [1; 0; 1] = Raise e) ∧
  (∀ counts, calc_TP_TN_FP_FN [1] [1; 0; 1] ≠ Ok counts) ∧
  (Forall int32 [1] → Forall int32 [1; 0; 1] →
   calc_TP_TN_FP_FN [1] [1; 0; 1] = Raise AssertionError).
Proof. apply (length_mismatch_raises [1] [1; 0; 1]). simpl. lia. Defined.

(** *** The three ratios *)

(** The examples of the docstrings: the three values print as 0.625,
    0.500 and 0.667, and empty input gives 0.000. *)
Example calc_ACC_doctest :
  calc_ACC [0; 0; 0; 0; 1; 1; 1; 1] [0; 0; 1; 0; 1; 1; 0; 0]
  = Ok 0x1.3fffffffeed1fp-1%float.
Proof. vm_compute. reflexivity. Qed.

Example calc_TPR_doctest :
  calc_TPR [0; 0; 0; 0; 1; 1; 1; 1] [0; 0; 1; 0; 1; 1; 0; 0]
  = Ok 0x1.ffffffffc9064p-2%float ∧
  calc_TPR [] [] = Ok 0%float.
Proof. split; vm_compute; reflexivity. Qed.

Example calc_PPV_doctest :
  calc_PPV [0; 0; 0; 0; 1; 1; 1; 1] [0; 0; 1; 0; 1; 1; 0; 0]
  = Ok 0x1.5555555524775p-1%float ∧
  calc_PPV [] [] = Ok 0%float.
Proof. split; vm_compute; reflexivity. Qed.

(** The expression [t / (s + 1e-10)] on two counts [0 <= t <= s]. *)
Lemma count_ratio t s :
  0 ≤ t → t ≤ s → s < 2 ^ 63 →
  (den ← int_add_float s eps; int_truediv_float t den)
  = Ok (to_float t / (to_float s + eps))%float ∧
  in_unit (to_float t / (to_float s + eps))%float.
Proof.
  intros Ht Hts Hs.
  destruct (Rounding.ratio_in_unit t s Ht Hts Hs) as (Hs' & Ht' & Hnz & Hq).
  split; [|done].
  unfold int_add_float, int_truediv_float, float_of_int, mbind, result_bind, mret,
    result_ret.
  destruct (binary_normalize prec emax s 0 false) eqn:Es;
    try (by destruct (Hs' s0));
    destruct (binary_normalize prec emax t 0 false) eqn:Et;
    try (by destruct (Ht' s1)); try (by destruct (Ht' s0)); by rewrite Hnz.
Qed.

(** C9. On two sequences of the same length with entries in [{0, 1}] (the
    length of an array is below [2^63]) the three metrics return the
    doubles [(TP+TN) / (TP+TN+FP+FN + 1e-10)], [TP / (TP+FN + 1e-10)] and
    [TP / (TP+FP + 1e-10)]; each lies in [[0, 1]]; on empty input
    [calc_TPR] and [calc_PPV] return 0.0.  No call raises. *)
Theorem metrics_in_unit ytrue yhat :
  length ytrue = length yhat → Forall binary ytrue → Forall binary yhat →
  Z.of_nat (length ytrue) < 2 ^ 63 →
  ∃ TP TN FP FN acc tpr ppv,
    calc_TP_TN_FP_FN ytrue yhat = Ok (TP, TN, FP, FN) ∧
    calc_ACC ytrue yhat = Ok acc ∧
    calc_TPR ytrue yhat = Ok tpr ∧
    calc_PPV ytrue yhat = Ok ppv ∧
    acc = (to_float (TP + TN) / (to_float (TP + TN + FP + FN) + eps))%float ∧
    tpr = (to_float TP / (to_float (TP + FN) + eps))%float ∧
    ppv = (to_float TP / (to_float (TP + FP) + eps))%float ∧
    in_unit acc ∧ in_unit tpr ∧ in_unit ppv ∧
    (ytrue = [] → tpr = 0%float ∧ ppv = 0%float).
Proof.
  intros Hlen Ht Hp Hbound.
  assert (calc_TP_TN_FP_FN ytrue yhat
          = Ok (count_pairs 1 1 ytrue yhat, count_pairs 0 0 ytrue yhat,
                count_pairs 0 1 ytrue yhat, count_pairs 1 0 ytrue yhat)) as Hcounts.
  { unfold calc_TP_TN_FP_FN.
    rewrite !asarray_int32_binary by done. cbn [mbind result_bind].
    rewrite decide_True by done.
    by destruct (sums_count ytrue yhat Ht Hp Hlen) as (-> & -> & -> & ->). }
  pose proof (count_pairs_total ytrue yhat Ht Hp Hlen) as Htotal.
  pose proof (count_pairs_nonneg 1 1 ytrue yhat).
  pose proof (count_pairs_nonneg 0 0 ytrue yhat).
  pose proof (count_pairs_nonneg 0 1 ytrue yhat).
  pose proof (count_pairs_nonneg 1 0 ytrue yhat).
  set (TP := count_pairs 1 1 ytrue yhat) in *.
  set (TN := count_pairs 0 0 ytrue yhat) in *.
  set (FP := count_pairs 0 1 ytrue yhat) in *.
  set (FN := count_pairs 1 0 ytrue yhat) in *.
  destruct (count_ratio (TP + TN) (TP + TN + FP + FN)) as [Eacc Hacc]; [lia..|].
  destruct (count_ratio TP (TP + FN)) as [Etpr Htpr]; [lia..|].
  destruct (count_ratio TP (TP + FP)) as [Eppv Hppv]; [lia..|].
  exists TP, TN, FP, FN. do 3 eexists.
  split; [done|].
  split; [unfold calc_ACC; rewrite Hcounts; exact Eacc|].
  split; [unfold calc_TPR; rewrite Hcounts; exact Etpr|].
  split; [unfold calc_PPV; rewrite Hcounts; exact Eppv|].
  do 3 (split; [done|]). do 3 (split; [done|]).
  intros ->. destruct yhat; [|done]. by vm_compute.
Qed.

Lemma metrics_in_unit_witness :
  ∃ TP TN FP FN acc tpr ppv,
    calc_TP_TN_FP_FN [0; 0; 0; 0; 1; 1; 1; 1] [0; 0; 1; 0; 1; 1; 0; 0]
    = Ok (TP, TN, FP, FN) ∧
    calc_ACC [0; 0; 0; 0; 1; 1; 1; 1] [0; 0; 1; 0; 1; 1; 0; 0] = Ok acc ∧
    calc_TPR [0; 0; 0; 0; 1; 1; 1; 1] [0; 0; 1; 0; 1; 1; 0; 0] = Ok tpr ∧
    calc_PPV [0; 0; 0; 0; 1; 1; 1; 1] [0; 0; 1; 0; 1; 1; 0; 0] = Ok ppv ∧
    acc = (to_float (TP + TN) / (to_float (TP + TN + FP + FN) + eps))%float ∧
    tpr = (to_float TP / (to_float (TP + FN) + eps))%float ∧
    ppv = (to_float TP / (to_float (TP + FP) + eps))%float ∧
    in_unit acc ∧ in_unit tpr ∧ in_unit ppv ∧
    ([0; 0; 0; 0; 1; 1; 1; 1] = [] → tpr = 0%float ∧ ppv = 0%float).
Proof.
  apply (metrics_in_unit [0; 0; 0; 0; 1; 1; 1; 1] [0; 0; 1; 0; 1; 1; 0; 0]);
    [reflexivity | | | vm_compute; reflexivity];
    repeat (constructor; [unfold binary; lia|]); constructor.
Defined.

End Confusion.

(** * Further properties

    The effects and the edge cases of the splitter, the driver that
    calls it, and the algebra of the metrics. *)

(** ** Indexing *)

Module IndexingFacts.

Section indexing.
Context {A : Type}.
Implicit Types (a : list A) (ids : list Z).

Lemma position_in_range len (i : Z) :
  0 ≤ i < Z.of_nat len → position len i = Some (Z.to_nat i).
Proof.
  intros Hi. unfold position. destruct (decide (i < 0)); [lia|].
  by rewrite decide_True by lia.
Qed.

Lemma position_beyond len (i : Z) : Z.of_nat len ≤ i → position len i = None.
Proof.
  intros Hi. unfold position. destruct (decide (i < 0)); [lia|].
  by rewrite decide_False by lia.
Qed.

Lemma getitem_lookup a (f : nat) v :
  a !! f = Some v → getitem a (Z.of_nat f) = Return v.
Proof.
  intros Hv. unfold getitem. pose proof (lookup_lt_Some _ _ _ Hv).
  rewrite position_in_range by lia. simpl. by rewrite Nat2Z.id, Hv.
Qed.

Lemma getitem_in_range a (i : Z) :
  0 ≤ i < Z.of_nat (length a) →
  ∃ v, a !! Z.to_nat i = Some v ∧ getitem a i = Return v.
Proof.
  intros Hi. destruct (lookup_lt_is_Some_2 a (Z.to_nat i)) as [v Hv]; [lia|].
  exists v. split; [done|]. rewrite <-(Z2Nat.id i) by lia.
  by apply getitem_lookup.
Qed.

Lemma getitem_beyond a (i : Z) :
  Z.of_nat (length a) ≤ i → getitem a i = Throw IndexError.
Proof. intros Hi. unfold getitem. by rewrite position_beyond. Qed.

Lemma getitem_throw a (i : Z) e : getitem a i = Throw e → e = IndexError.
Proof. unfold getitem. destruct (_ ≫= _); congruence. Qed.

Lemma setitem_in_range a (f : nat) v :
  (f < length a)%nat → setitem a (Z.of_nat f) v = Return (<[f := v]> a).
Proof.
  intros Hf. unfold setitem. rewrite position_in_range by lia.
  by rewrite Nat2Z.id.
Qed.

Lemma take_ids_in_range a ids :
  Forall (λ i, 0 ≤ i < Z.of_nat (length a)) ids →
  take_ids a ids = Return (DriverSpec.rows a ids).
Proof.
  unfold take_ids, DriverSpec.rows.
  induction 1 as [|i ids Hi _ IH]; [done|]. cbn [mapM omap].
  destruct (getitem_in_range a i Hi) as (v & Hv & ->).
  rewrite IH. simpl. by rewrite Hv.
Qed.

(** One index beyond the end makes the whole selection fail. *)
Lemma take_ids_beyond a ids i :
  i ∈ ids → Z.of_nat (length a) ≤ i → take_ids a ids = Throw IndexError.
Proof.
  unfold take_ids. intros Hin Hi.
  induction ids as [|j ids IH]; [by apply elem_of_nil in Hin|].
  cbn [mapM]. apply elem_of_cons in Hin as [<-|Hin].
  - by rewrite getitem_beyond.
  - rewrite IH by done. destruct (getitem a j) as [v|e] eqn:E; [done|].
    by rewrite (getitem_throw _ _ _ E).
Qed.

Lemma take_ids_throw a ids e : take_ids a ids = Throw e → e = IndexError.
Proof.
  unfold take_ids. induction ids as [|j ids IH]; [done|]. cbn [mapM].
  destruct (getitem a j) as [v|e'] eqn:E; simpl.
  - destruct (mapM (getitem a) ids); [done|]. intros [= <-]. by apply IH.
  - intros [= <-]. by apply (getitem_throw _ _ _ E).
Qed.

Lemma length_rows a ids :
  Forall (λ i, 0 ≤ i < Z.of_nat (length a)) ids →
  length (DriverSpec.rows a ids) = length ids.
Proof.
  unfold DriverSpec.rows. induction 1 as [|i ids Hi _ IH]; [done|]. simpl.
  destruct (lookup_lt_is_Some_2 a (Z.to_nat i)) as [v ->]; [lia|].
  simpl. f_equal. exact IH.
Qed.

End indexing.

End IndexingFacts.

(** ** The splitter: effects and edge cases *)

Module SplitterEffects.
Import Np NpFacts CrossValidation.

Section effects.
Context {G : Type} `{!Generator G}.
Implicit Types (h : heap G) (g : G) (rs : pyobj).

(** With a usable generator the call shuffles once, then computes the fold
    sizes, then cuts the folds. *)
Lemma run_usable N k rs h g :
  rng_state rs h = Some g →
  make_train_and_test_row_ids_for_n_fold_cv N k rs h
  = (match make_fold_sizes N k with
     | Ok fold_sizes => Ok (fold_loop (shuffled g N) fold_sizes 0 [] [])
     | Raise e => Raise e
     end, heap_after rs h g N).
Proof.
  intros Hg.
  unfold make_train_and_test_row_ids_for_n_fold_cv, mbind, M_bind, mret, M_ret,
    lift, get_random_state, shuffle_with, shuffled.
  destruct rs as [s|l]; cbn [rng_state heap_after] in *; rewrite Hg;
    cbn iota beta; rewrite ?Hg; cbn iota beta;
    by destruct (make_fold_sizes N k).
Qed.

Lemma run_unusable N k rs h :
  rng_state rs h = None →
  ∃ e, make_train_and_test_row_ids_for_n_fold_cv N k rs h = (Raise e, h).
Proof.
  intros Hg.
  unfold make_train_and_test_row_ids_for_n_fold_cv, mbind, M_bind, get_random_state.
  destruct rs as [s|l]; cbn [rng_state] in *; rewrite Hg; eauto.
Qed.

Lemma run_nonpositive N k rs h g :
  k ≤ 0 → rng_state rs h = Some g →
  make_train_and_test_row_ids_for_n_fold_cv N k rs h
  = (Raise (if decide (k = 0) then ZeroDivisionError else ValueError),
     heap_after rs h g N).
Proof.
  intros Hk Hg. rewrite (run_usable N k rs h g Hg).
  by rewrite Splitter.make_fold_sizes_nonpositive.
Qed.

Lemma length_slice_prefix_incr l stop :
  length (slice_prefix_incr l stop) = length l.
Proof.
  unfold slice_prefix_incr; cbv zeta.
  by rewrite length_app, length_fmap, <-length_app, take_drop.
Qed.

Lemma make_fold_sizes_positive N k :
  0 < k → ∃ sizes, make_fold_sizes N k = Ok sizes ∧ length sizes = Z.to_nat k.
Proof.
  intros Hk. unfold make_fold_sizes, floordiv, mod_, full.
  rewrite !decide_False by lia. eexists; split; [done|].
  by rewrite length_slice_prefix_incr, length_replicate.
Qed.

Lemma slice_nil {A} (a b : Z) : slice (@nil A) a b = [].
Proof. unfold slice; cbv zeta. by rewrite drop_nil, take_nil. Qed.

Lemma fold_loop_nil sizes cur trs tes :
  fold_loop [] sizes cur trs tes
  = (trs ++ replicate (length sizes) [], tes ++ replicate (length sizes) []).
Proof.
  revert cur trs tes. induction sizes as [|n sizes IH]; intros cur trs tes.
  - by rewrite !app_nil_r.
  - cbn [fold_loop length replicate]. rewrite slice_nil, IH.
    change (setdiff1d [] []) with (@nil Z).
    by rewrite <-!app_assoc.
Qed.

Lemma shuffled_negative g N : N ≤ 0 → shuffled g N = [].
Proof.
  intros HN. apply Permutation_nil_r.
  rewrite Splitter.shuffled_Permutation. by rewrite seqZ_nil by lia.
Qed.

Lemma unique_shuffled g N : unique (shuffled g N) = seqZ 0 N.
Proof.
  rewrite unique_NoDup by apply Splitter.NoDup_shuffled.
  apply (Sorted_unique Z.le).
  - apply Sorted_merge_sort; apply _.
  - apply Splitter.Sorted_seqZ.
  - rewrite merge_sort_Permutation. apply Splitter.shuffled_Permutation.
Qed.

Lemma filter_iff (P Q : Z → Prop) `{!∀ i, Decision (P i)} `{!∀ i, Decision (Q i)}
    (l : list Z) :
  (∀ i, P i ↔ Q i) → filter P l = filter Q l.
Proof.
  intros HPQ. induction l as [|i l IH]; [done|].
  rewrite !filter_cons, IH.
  pose proof (HPQ i). destruct (decide (P i)), (decide (Q i)); done || tauto.
Qed.

Lemma setdiff1d_shuffled g N te :
  setdiff1d (shuffled g N) te = filter (λ i, i ∉ te) (seqZ 0 N).
Proof.
  unfold setdiff1d; cbv zeta. rewrite unique_shuffled.
  apply filter_iff. intros i. by rewrite elem_of_unique.
Qed.

Lemma StronglySorted_seqZ m n : StronglySorted Z.lt (seqZ m n).
Proof.
  remember (Z.to_nat n) as len eqn:Hlen. revert m n Hlen.
  induction len as [|len IH]; intros m n Hlen.
  - rewrite seqZ_nil by lia. constructor.
  - rewrite seqZ_cons by lia. constructor; [apply IH; lia|].
    apply Forall_forall. intros i Hi%elem_of_seqZ. lia.
Qed.

Lemma StronglySorted_filter (P : Z → Prop) `{!∀ i, Decision (P i)} (l : list Z) :
  StronglySorted Z.lt l → StronglySorted Z.lt (filter P l).
Proof.
  induction 1 as [|i l _ IH Hi]; [constructor|].
  rewrite filter_cons. destruct (decide (P i)); [|done].
  constructor; [done|].
  apply Forall_forall. intros j [_ Hj]%list_elem_of_filter.
  by apply (proj1 (Forall_forall _ _) Hi).
Qed.

Lemma folds_in_range g N k :
  0 ≤ N → 0 < k →
  let tes := blocks (shuffled g N) 0 (block_sizes N k) in
  Forall (Forall (λ i, 0 ≤ i < N)) tes ∧
  Forall (Forall (λ i, 0 ≤ i < N)) ((λ te, setdiff1d (shuffled g N) te) <$> tes).
Proof.
  intros HN Hk tes. split.
  - apply Forall_forall. intros te Hte. apply Forall_forall. intros i Hi.
    apply (Splitter.elem_of_shuffled g).
    eapply sublist_subseteq; [by eapply Splitter.blocks_sublist|done].
  - apply Forall_fmap, Forall_forall. intros te _. simpl.
    apply Forall_forall. intros i [Hi _]%elem_of_setdiff1d.
    by apply (Splitter.elem_of_shuffled g).
Qed.

(** X1. The train array of every fold lists, in increasing order, the ids
    [0 .. N-1] that are not in the fold's test array. *)
Theorem train_ids_in_order N k rs h g :
  0 ≤ N → 0 < k → rng_state rs h = Some g →
  ∃ trs tes,
    (make_train_and_test_row_ids_for_n_fold_cv N k rs h).1 = Ok (trs, tes) ∧
    trs = (λ te, filter (λ i, i ∉ te) (seqZ 0 N)) <$> tes ∧
    Forall (Sorted Z.lt) trs.
Proof.
  intros HN Hk Hg. rewrite (Splitter.run_ok N k rs h g) by done.
  eexists _, _. split; [done|].
  assert (∀ te, setdiff1d (shuffled g N) te = filter (λ i, i ∉ te) (seqZ 0 N))
    as Heq by apply setdiff1d_shuffled.
  split.
  - apply list_fmap_ext. intros _ te _. apply Heq.
  - apply Forall_fmap, Forall_forall. intros te _. simpl. rewrite Heq.
    apply StronglySorted_Sorted, StronglySorted_filter, StronglySorted_seqZ.
Qed.

(** X2. A negative [n_examples] is not rejected: with a positive fold
    count the call returns [n_folds] empty train and test arrays. *)
Theorem negative_examples_empty_folds N k rs h g :
  N < 0 → 0 < k → rng_state rs h = Some g →
  (make_train_and_test_row_ids_for_n_fold_cv N k rs h).1
  = Ok (replicate (Z.to_nat k) [], replicate (Z.to_nat k) []).
Proof.
  intros HN Hk Hg. rewrite (run_usable N k rs h g Hg).
  destruct (make_fold_sizes_positive N k Hk) as (sizes & -> & Hlen).
  cbn [fst]. by rewrite shuffled_negative, fold_loop_nil, Hlen by lia.
Qed.

(** X3. The call returns exactly when the fold count is positive and the
    random state is usable (an accepted seed or a generator object),
    whatever [n_examples] is. *)
Theorem returns_iff N k rs h :
  (∃ ids, (make_train_and_test_row_ids_for_n_fold_cv N k rs h).1 = Ok ids)
  ↔ 0 < k ∧ is_Some (rng_state rs h).
Proof.
  split.
  - intros [ids Hids]. destruct (rng_state rs h) as [g|] eqn:Hg.
    + split; [|by eexists]. destruct (decide (0 < k)) as [|Hk]; [done|].
      rewrite (run_nonpositive N k rs h g) in Hids by (done || lia). done.
    + destruct (run_unusable N k rs h Hg) as [e He]. by rewrite He in Hids.
  - intros [Hk [g Hg]]. rewrite (run_usable N k rs h g Hg).
    destruct (make_fold_sizes_positive N k Hk) as (sizes & -> & _). by eexists.
Qed.

(** X4. A generator object that is passed in is advanced by exactly one
    shuffle of [arange(n_examples)], for every fold count, also when the
    call raises; no other object changes.  A reference to something that
    is not a generator changes nothing. *)
Theorem generator_effect N k l h :
  (make_train_and_test_row_ids_for_n_fold_cv N k (PyRef l) h).2
  = match h !! l with
    | Some g => <[l := (shuffle g (arange N)).2]> h
    | None => h
    end.
Proof.
  destruct (h !! l) as [g|] eqn:Hg.
  - by rewrite (run_usable N k (PyRef l) h g Hg).
  - destruct (run_unusable N k (PyRef l) h Hg) as [e He]. by rewrite He.
Qed.

(** X5. The folds depend on the random state only through the state of the
    generator that is used: a generator object in the state that a seed
    constructs gives the folds of that seed. *)
Theorem folds_of_generator_state N k rs1 rs2 (h1 h2 : heap G) g :
  rng_state rs1 h1 = Some g → rng_state rs2 h2 = Some g →
  (make_train_and_test_row_ids_for_n_fold_cv N k rs1 h1).1
  = (make_train_and_test_row_ids_for_n_fold_cv N k rs2 h2).1.
Proof.
  intros H1 H2. by rewrite (run_usable N k rs1 h1 g H1), (run_usable N k rs2 h2 g H2).
Qed.

(** X6. With a usable random state, [n_folds = 0] raises ZeroDivisionError
    and a negative [n_folds] raises ValueError. *)
Theorem nonpositive_folds_exception N k rs h g :
  k ≤ 0 → rng_state rs h = Some g →
  (make_train_and_test_row_ids_for_n_fold_cv N k rs h).1
  = Raise (if decide (k = 0) then ZeroDivisionError else ValueError).
Proof. intros Hk Hg. by rewrite (run_nonpositive N k rs h g). Qed.

End effects.

Lemma train_ids_in_order_witness :
  ∃ trs tes,
    (make_train_and_test_row_ids_for_n_fold_cv (G := Z) 11 3 (PyInt 0) ∅).1
    = Ok (trs, tes) ∧
    trs = (λ te, filter (λ i, i ∉ te) (seqZ 0 11)) <$> tes ∧
    Forall (Sorted Z.lt) trs.
Proof.
  apply (train_ids_in_order 11 3 (PyInt 0) ∅ 0); [lia | lia | reflexivity].
Defined.

Lemma negative_examples_empty_folds_witness :
  (make_train_and_test_row_ids_for_n_fold_cv (G := Z) (-3) 2 (PyInt 0) ∅).1
  = Ok ([[]; []], [[]; []]).
Proof.
  apply (negative_examples_empty_folds (-3) 2 (PyInt 0) ∅ 0);
    [lia | lia | reflexivity].
Defined.

Lemma folds_of_generator_state_witness :
  (make_train_and_test_row_ids_for_n_fold_cv (G := Z) 11 3 (PyInt 5) ∅).1
  = (make_train_and_test_row_ids_for_n_fold_cv 11 3 (PyRef 1)
       {[ 1%positive := 5 ]}).1.
Proof.
  apply (folds_of_generator_state 11 3 (PyInt 5) (PyRef 1) ∅
           {[ 1%positive := 5 ]} 5); reflexivity.
Defined.

Lemma nonpositive_folds_exception_witness :
  (make_train_and_test_row_ids_for_n_fold_cv (G := Z) 4 (-2) (PyRef 1)
     {[ 1%positive := 7 ]}).1
  = Raise ValueError.
Proof.
  apply (nonpositive_folds_exception 4 (-2) (PyRef 1) {[ 1%positive := 7 ]} 7);
    [lia | reflexivity].
Defined.

End SplitterEffects.

(** ** The driver *)

Module DriverFacts.
Import Np NpFacts CrossValidation Driver DriverSpec IndexingFacts SplitterEffects.
Import Demo.

Section driver.
Context {G : Type} `{!Generator G} {E : Type} `{!Estimator E}.
Variable rmse : list float → list float → outcome float.
Implicit Types (x : list (list float)) (y : list float) (h : heap G) (e : E).
Implicit Types (trs tes : list (list Z)) (a b : list spec_float).
Implicit Types (s : heap G * E).

Lemma seqZ_of_nat (n : nat) (i : nat) :
  seqZ (Z.of_nat i) (Z.of_nat n) = Z.of_nat <$> seq i n.
Proof.
  unfold seqZ. rewrite Nat2Z.id.
  replace (seq i n) with (seq (i + 0) n) by (f_equal; lia).
  rewrite <-(fmap_add_seq i 0), <-list_fmap_compose.
  apply list_fmap_ext. intros _ j _. simpl. lia.
Qed.

Lemma fold_body_in_range x y trs tes (f : nat) tr te a b s :
  trs !! f = Some tr → tes !! f = Some te →
  in_range x tr → in_range x te → in_range y tr → in_range y te →
  (f < length a)%nat → (f < length b)%nat →
  fold_body rmse x y trs tes (Z.of_nat f) (a, b) s
  = fold_step rmse (rows x tr) (rows y tr) (rows x te) (rows y te) f (a, b) s.
Proof.
  intros Htr Hte Hxr Hxe Hyr Hye Ha Hb.
  unfold fold_body, fold_step, mbind, D_bind, mret, D_ret, pure.
  rewrite (getitem_lookup _ _ _ Htr), (getitem_lookup _ _ _ Hte).
  rewrite !take_ids_in_range by done.
  destruct (estimator (fit _ _) s) as [[[]|?] s1]; [|done].
  destruct (estimator (predict _) s1) as [[p1|?] s2]; [|done].
  destruct (estimator (predict _) s2) as [[p2|?] s3]; [|done].
  destruct (rmse _ p1) as [v1|?]; [|done].
  rewrite setitem_in_range by done.
  destruct (rmse _ p2) as [v2|?]; [|done].
  by rewrite setitem_in_range by done.
Qed.

Lemma fold_step_outcome xr yr xe ye (f : nat) a b s :
  let res := fold_step rmse xr yr xe ye f (a, b) s in
  res.2.1 = s.1 ∧
  match res.1 with
  | Return (a', b') => length a' = length a ∧ length b' = length b
  | Throw ex => raised_by_callback rmse ex
  end.
Proof.
  unfold fold_step, mbind, D_bind, mret, D_ret, pure, estimator, raised_by_callback.
  destruct s as [h e]. cbn [fst snd].
  destruct (fit xr yr e) as [[[]|ex] e1] eqn:E1; cbn [fst snd].
  2:{ split; [done|]. left. exists xr, yr, e. by rewrite E1. }
  destruct (predict xr e1) as [[p1|ex] e2] eqn:E2; cbn [fst snd].
  2:{ split; [done|]. right; left. exists xr, e1. by rewrite E2. }
  destruct (predict xe e2) as [[p2|ex] e3] eqn:E3; cbn [fst snd].
  2:{ split; [done|]. right; left. exists xe, e2. by rewrite E3. }
  destruct (rmse yr p1) as [v1|ex] eqn:E4; cbn [fst snd].
  2:{ split; [done|]. right; right. by exists yr, p1. }
  destruct (rmse ye p2) as [v2|ex] eqn:E5; cbn [fst snd].
  2:{ split; [done|]. right; right. by exists ye, p2. }
  by rewrite !length_insert.
Qed.

Lemma score_loop_outcome x y trs tes (n i : nat) a b s :
  length trs = (i + n)%nat → length tes = (i + n)%nat →
  length a = (i + n)%nat → length b = (i + n)%nat →
  Forall (in_range x) trs → Forall (in_range x) tes →
  Forall (in_range y) trs → Forall (in_range y) tes →
  let res := score_loop rmse x y trs tes (Z.of_nat <$> seq i n) (a, b) s in
  res.2.1 = s.1 ∧
  match res.1 with
  | Return (a', b') => length a' = length a ∧ length b' = length b
  | Throw ex => raised_by_callback rmse ex
  end.
Proof.
  intros Htrs Htes Ha Hb Hxr Hxe Hyr Hye.
  revert i a b s Htrs Htes Ha Hb.
  induction n as [|n IH]; intros i a b s Htrs Htes Ha Hb; [done|].
  cbn [seq fmap list_fmap score_loop].
  destruct (lookup_lt_is_Some_2 trs i) as [tr Htr]; [lia|].
  destruct (lookup_lt_is_Some_2 tes i) as [te Hte]; [lia|].
  unfold mbind, D_bind.
  pose proof (Forall_lookup_1 _ _ _ _ Hxr Htr).
  pose proof (Forall_lookup_1 _ _ _ _ Hxe Hte).
  pose proof (Forall_lookup_1 _ _ _ _ Hyr Htr).
  pose proof (Forall_lookup_1 _ _ _ _ Hye Hte).
  rewrite (fold_body_in_range x y trs tes i tr te) by (done || lia).
  pose proof (fold_step_outcome (rows x tr) (rows y tr) (rows x te) (rows y te)
                i a b s) as Hstep.
  cbv zeta in Hstep.
  destruct (fold_step _ _ _ _ _ _ _ s) as [[[a1 b1]|ex] s1]; cbn [fst snd] in *.
  - destruct Hstep as (Hs & Ha1 & Hb1).
    destruct (IH (S i) a1 b1 s1) as [Hs' HI]; [lia..|].
    rewrite Ha1, Hb1 in HI. split; [congruence|done].
  - done.
Qed.

Lemma fold_step_return xr yr xe ye (f : nat) a b s a1 b1 :
  (fold_step rmse xr yr xe ye f (a, b) s).1 = Return (a1, b1) →
  ∃ e1 p1 v1 e2 p2 v2,
    (predict xr e1).1 = Return p1 ∧ rmse yr p1 = Return v1 ∧
    (predict xe e2).1 = Return p2 ∧ rmse ye p2 = Return v2 ∧
    a1 = <[f := float32 v1]> a ∧ b1 = <[f := float32 v2]> b.
Proof.
  unfold fold_step, mbind, D_bind, mret, D_ret, pure, estimator.
  destruct s as [h e]. cbn [fst snd].
  destruct (fit xr yr e) as [[[]|ex] e1] eqn:E1; cbn [fst snd]; [|done].
  destruct (predict xr e1) as [[p1|ex] e2] eqn:E2; cbn [fst snd]; [|done].
  destruct (predict xe e2) as [[p2|ex] e3] eqn:E3; cbn [fst snd]; [|done].
  destruct (rmse yr p1) as [v1|ex] eqn:E4; cbn [fst snd]; [|done].
  destruct (rmse ye p2) as [v2|ex] eqn:E5; cbn [fst snd]; [|done].
  intros [= <- <-]. exists e1, p1, v1, e2, p2, v2.
  by rewrite E2, E3.
Qed.

Lemma score_loop_entries x y trs tes (n i : nat) a b s :
  length trs = (i + n)%nat → length tes = (i + n)%nat →
  length a = (i + n)%nat → length b = (i + n)%nat →
  Forall (in_range x) trs → Forall (in_range x) tes →
  Forall (in_range y) trs → Forall (in_range y) tes →
  (∀ f ids, (f < i)%nat → trs !! f = Some ids →
     ∃ v, a !! f = Some v ∧ error_entry rmse x y ids v) →
  (∀ f ids, (f < i)%nat → tes !! f = Some ids →
     ∃ v, b !! f = Some v ∧ error_entry rmse x y ids v) →
  match (score_loop rmse x y trs tes (Z.of_nat <$> seq i n) (a, b) s).1 with
  | Return (a', b') =>
      (∀ f ids, trs !! f = Some ids →
         ∃ v, a' !! f = Some v ∧ error_entry rmse x y ids v) ∧
      (∀ f ids, tes !! f = Some ids →
         ∃ v, b' !! f = Some v ∧ error_entry rmse x y ids v)
  | Throw _ => True
  end.
Proof.
  intros Htrs Htes Ha Hb Hxr Hxe Hyr Hye.
  revert i a b s Htrs Htes Ha Hb.
  induction n as [|n IH]; intros i a b s Htrs Htes Ha Hb Hia Hib.
  { cbn. split; intros f ids Hf.
    - apply Hia; [|done]. apply lookup_lt_Some in Hf. lia.
    - apply Hib; [|done]. apply lookup_lt_Some in Hf. lia. }
  cbn [seq fmap list_fmap score_loop].
  destruct (lookup_lt_is_Some_2 trs i) as [tr Htr]; [lia|].
  destruct (lookup_lt_is_Some_2 tes i) as [te Hte]; [lia|].
  unfold mbind, D_bind.
  pose proof (Forall_lookup_1 _ _ _ _ Hxr Htr).
  pose proof (Forall_lookup_1 _ _ _ _ Hxe Hte).
  pose proof (Forall_lookup_1 _ _ _ _ Hyr Htr).
  pose proof (Forall_lookup_1 _ _ _ _ Hye Hte).
  rewrite (fold_body_in_range x y trs tes i tr te) by (done || lia).
  pose proof (fold_step_return (rows x tr) (rows y tr) (rows x te) (rows y te)
                i a b s) as Hret.
  destruct (fold_step _ _ _ _ _ _ _ s) as [[[a1 b1]|ex] s1]; cbn [fst snd] in *;
    [|done].
  destruct (Hret a1 b1 eq_refl)
    as (e1 & p1 & v1 & e2 & p2 & v2 & Hp1 & Hv1 & Hp2 & Hv2 & -> & ->).
  apply IH; rewrite ?length_insert; try lia.
  - intros f ids Hf Hids. destruct (decide (f = i)) as [->|Hne].
    + rewrite list_lookup_insert_eq by lia. simplify_eq.
      eexists; split; [done|]. by exists e1, p1, v1.
    + rewrite list_lookup_insert_ne by done. apply Hia; [lia|done].
  - intros f ids Hf Hids. destruct (decide (f = i)) as [->|Hne].
    + rewrite list_lookup_insert_eq by lia. simplify_eq.
      eexists; split; [done|]. by exists e2, p2, v2.
    + rewrite list_lookup_insert_ne by done. apply Hib; [lia|done].
Qed.

Lemma seqZ_folds (k : Z) : seqZ 0 k = Z.of_nat <$> seq 0 (Z.to_nat k).
Proof.
  destruct (decide (0 ≤ k)).
  - rewrite <-(seqZ_of_nat (Z.to_nat k) 0). f_equal; lia.
  - rewrite seqZ_nil by lia. by replace (Z.to_nat k) with 0%nat by lia.
Qed.

Lemma in_range_le {A B} (u : list A) (v : list B) ids :
  (length u ≤ length v)%nat → in_range u ids → in_range v ids.
Proof.
  intros Hle Hu. unfold in_range in *. eapply Forall_impl; [exact Hu|].
  simpl. lia.
Qed.

(** With a positive fold count and a usable generator the driver gets to
    its loop, with the folds of the splitter. *)
Lemma driver_loop x y k rs h e g :
  0 < k → rng_state rs h = Some g →
  let N := Z.of_nat (length x) in
  let tes := blocks (shuffled g N) 0 (block_sizes N k) in
  let trs := (λ te, setdiff1d (shuffled g N) te) <$> tes in
  train_models_and_calc_scores_for_n_fold_cv rmse x y k rs (h, e)
  = score_loop rmse x y trs tes (Z.of_nat <$> seq 0 (Z.to_nat k))
      (replicate (Z.to_nat k) (S754_zero false),
       replicate (Z.to_nat k) (S754_zero false))
      (heap_after rs h g N, e).
Proof.
  intros Hk Hg N tes trs.
  unfold train_models_and_calc_scores_for_n_fold_cv, mbind, D_bind, pure,
    splitter, zeros.
  rewrite decide_False by lia. cbn [fst snd].
  rewrite (Splitter.run_ok N k rs h g) by (done || lia).
  cbn [of_result fst snd]. by rewrite seqZ_folds.
Qed.

Lemma driver_folds g N k :
  0 ≤ N → 0 < k →
  let tes := blocks (shuffled g N) 0 (block_sizes N k) in
  let trs := (λ te, setdiff1d (shuffled g N) te) <$> tes in
  length trs = Z.to_nat k ∧ length tes = Z.to_nat k.
Proof.
  intros HN Hk tes trs. unfold trs, tes.
  by rewrite length_fmap, Splitter.length_blocks, Splitter.length_block_sizes.
Qed.

Lemma fold_body_short x y trs tes (f : nat) tr te a b s i :
  trs !! f = Some tr → tes !! f = Some te →
  in_range x tr → in_range x te →
  i ∈ tr ∨ i ∈ te → Z.of_nat (length y) ≤ i →
  fold_body rmse x y trs tes (Z.of_nat f) (a, b) s = (Throw IndexError, s).
Proof.
  intros Htr Hte Hxr Hxe Hi Hy.
  unfold fold_body, mbind, D_bind, pure.
  rewrite (getitem_lookup _ _ _ Htr), (getitem_lookup _ _ _ Hte).
  rewrite (take_ids_in_range x tr) by done.
  destruct (take_ids y tr) as [yr|ex] eqn:Eyr.
  2:{ by rewrite (take_ids_throw _ _ _ Eyr). }
  rewrite (take_ids_in_range x te) by done.
  destruct Hi as [Hi|Hi].
  - by rewrite (take_ids_beyond y tr i) in Eyr.
  - by rewrite (take_ids_beyond y te i).
Qed.

(** X7. With a positive fold count, a usable random state and a target
    for every row, the driver either returns two arrays of [n_folds]
    errors or raises an exception that [fit], [predict] or the error
    function raised; its only effect on the generator objects is that of
    the splitter. *)
Theorem driver_outcome x y k rs h e g :
  0 < k → rng_state rs h = Some g → (length x ≤ length y)%nat →
  let res := train_models_and_calc_scores_for_n_fold_cv rmse x y k rs (h, e) in
  res.2.1 = (make_train_and_test_row_ids_for_n_fold_cv
               (Z.of_nat (length x)) k rs h).2 ∧
  match res.1 with
  | Return (train_error_per_fold, test_error_per_fold) =>
      length train_error_per_fold = Z.to_nat k ∧
      length test_error_per_fold = Z.to_nat k
  | Throw ex => raised_by_callback rmse ex
  end.
Proof.
  intros Hk Hg Hxy. cbv zeta. rewrite (driver_loop x y k rs h e g Hk Hg).
  rewrite (run_usable _ k rs h g Hg). cbn [snd].
  set (N := Z.of_nat (length x)).
  destruct (folds_in_range g N k) as [Hte Htr]; [lia..|].
  destruct (driver_folds g N k) as [Hltr Hlte]; [lia..|].
  cbv zeta in Hte, Htr, Hltr, Hlte.
  pose proof (score_loop_outcome x y _ _ (Z.to_nat k) 0
    (replicate (Z.to_nat k) (S754_zero false))
    (replicate (Z.to_nat k) (S754_zero false))
    (heap_after rs h g N, e) Hltr Hlte) as Hloop.
  rewrite !length_replicate in Hloop. cbv zeta in Hloop.
  apply Hloop; [lia|lia|exact Htr|exact Hte|..].
  - eapply Forall_impl; [exact Htr|]. intros tr Hr. exact (in_range_le x y tr Hxy Hr).
  - eapply Forall_impl; [exact Hte|]. intros te Hr. exact (in_range_le x y te Hxy Hr).
Qed.

(** X8. What a returned array holds: entry [f] of the first array is the
    float32 value of the error between the train targets of fold [f] and
    a prediction the estimator returned for the train rows of fold [f];
    entry [f] of the second array is the same for the test rows.  (The
    zeros the arrays start with are all overwritten.) *)
Theorem errors_per_fold x y k rs h e g :
  0 < k → rng_state rs h = Some g → (length x ≤ length y)%nat →
  ∃ trs tes,
    (make_train_and_test_row_ids_for_n_fold_cv (Z.of_nat (length x)) k rs h).1
    = Ok (trs, tes) ∧
    match (train_models_and_calc_scores_for_n_fold_cv rmse x y k rs (h, e)).1 with
    | Return (train_error_per_fold, test_error_per_fold) =>
        (∀ f ids, trs !! f = Some ids →
           ∃ v, train_error_per_fold !! f = Some v ∧ error_entry rmse x y ids v) ∧
        (∀ f ids, tes !! f = Some ids →
           ∃ v, test_error_per_fold !! f = Some v ∧ error_entry rmse x y ids v)
    | Throw _ => True
    end.
Proof.
  intros Hk Hg Hxy. rewrite (driver_loop x y k rs h e g Hk Hg).
  rewrite (Splitter.run_ok _ k rs h g) by (done || lia). cbn [fst]. cbv zeta.
  set (N := Z.of_nat (length x)).
  destruct (folds_in_range g N k) as [Hte Htr]; [lia..|].
  destruct (driver_folds g N k) as [Hltr Hlte]; [lia..|].
  cbv zeta in Hte, Htr, Hltr, Hlte.
  eexists _, _. split; [done|].
  apply score_loop_entries; rewrite ?length_replicate; try done; try lia.
  - eapply Forall_impl; [exact Htr|]. intros tr Hr. exact (in_range_le x y tr Hxy Hr).
  - eapply Forall_impl; [exact Hte|]. intros te Hr. exact (in_range_le x y te Hxy Hr).
Qed.

(** X9. With fewer targets than rows (and a positive fold count, a usable
    random state) the driver raises IndexError in the first fold, before
    the estimator is used. *)
Theorem short_targets_raise x y k rs h e g :
  0 < k → rng_state rs h = Some g → (length y < length x)%nat →
  train_models_and_calc_scores_for_n_fold_cv rmse x y k rs (h, e)
  = (Throw IndexError,
     ((make_train_and_test_row_ids_for_n_fold_cv
         (Z.of_nat (length x)) k rs h).2, e)).
Proof.
  intros Hk Hg Hxy. rewrite (driver_loop x y k rs h e g Hk Hg).
  rewrite (run_usable _ k rs h g Hg). cbn [snd]. cbv zeta.
  set (N := Z.of_nat (length x)).
  destruct (folds_in_range g N k) as [Hte Htr]; [lia..|].
  destruct (driver_folds g N k) as [Hltr Hlte]; [lia..|].
  cbv zeta in Hte, Htr, Hltr, Hlte.
  set (tes := blocks (shuffled g N) 0 (block_sizes N k)) in *.
  destruct (lookup_lt_is_Some_2 tes 0) as [te Hte0]; [lia|].
  assert (((λ te, setdiff1d (shuffled g N) te) <$> tes) !! 0%nat
          = Some (setdiff1d (shuffled g N) te)) as Htr0.
  { by rewrite list_lookup_fmap, Hte0. }
  destruct (Z.to_nat k) as [|n] eqn:Ek; [lia|].
  cbn [seq fmap list_fmap score_loop]. unfold mbind, D_bind.
  rewrite (fold_body_short x y _ tes 0 _ te _ _ _ (Z.of_nat (length y)) Htr0 Hte0);
    [done| | | |lia].
  - exact (Forall_lookup_1 _ _ _ _ Htr Htr0).
  - exact (Forall_lookup_1 _ _ _ _ Hte Hte0).
  - destruct (decide (Z.of_nat (length y) ∈ te)); [by right|left].
    apply elem_of_setdiff1d. split; [|done].
    apply Splitter.elem_of_shuffled. lia.
Qed.

(** X10. A negative fold count is rejected by [np.zeros], before the
    splitter runs: ValueError, with every generator object and the
    estimator as they were. *)
Theorem negative_folds_rejected x y k rs s :
  k < 0 →
  train_models_and_calc_scores_for_n_fold_cv rmse x y k rs s
  = (Throw (Builtin ValueError), s).
Proof.
  intros Hk.
  unfold train_models_and_calc_scores_for_n_fold_cv, mbind, D_bind, pure, zeros.
  by rewrite decide_True by lia.
Qed.

(** X11. An exception of the splitter (fold count zero, unusable random
    state) passes through the driver, which has not used the estimator. *)
Theorem splitter_exception_passes x y k rs h e ex :
  0 ≤ k →
  (make_train_and_test_row_ids_for_n_fold_cv (Z.of_nat (length x)) k rs h).1
  = Raise ex →
  train_models_and_calc_scores_for_n_fold_cv rmse x y k rs (h, e)
  = (Throw (Builtin ex),
     ((make_train_and_test_row_ids_for_n_fold_cv
         (Z.of_nat (length x)) k rs h).2, e)).
Proof.
  intros Hk Hex.
  unfold train_models_and_calc_scores_for_n_fold_cv, mbind, D_bind, pure,
    splitter, zeros.
  rewrite decide_False by lia. cbn [fst snd].
  destruct (make_train_and_test_row_ids_for_n_fold_cv _ k rs h) as [r h'].
  cbn [fst snd] in *. by rewrite Hex.
Qed.

End driver.

(** *** The calls the estimator receives *)

Section trace.
Context {G : Type} `{!Generator G} {E : Type} `{!Estimator E}.
Variable rmse : list float → list float → outcome float.
Implicit Types (x : list (list float)) (y : list float) (h : heap G) (e : E).
Implicit Types (trs tes : list (list Z)) (a b : list spec_float).
Implicit Types (log : list call) (sl : heap G * (E * list call)).

Lemma fold_step_trace xr yr xe ye (f : nat) a b sl :
  let res := fold_step rmse xr yr xe ye f (a, b) sl in
  ∃ c, res.2.2.2 = sl.2.2 ++ Fit xr yr :: c ∧
       c `prefix_of` [Predict xr; Predict xe] ∧
       (∀ v, res.1 = Return v → c = [Predict xr; Predict xe]).
Proof.
  unfold fold_step, mbind, D_bind, mret, D_ret, pure, estimator.
  destruct sl as [h [e log]]. cbn [fst snd fit predict Logged].
  destruct (fit xr yr e) as [[[]|ex] e1]; cbn [fst snd].
  2:{ exists []. split; [done|]. split; [apply prefix_nil|done]. }
  destruct (predict xr e1) as [[p1|ex] e2]; cbn [fst snd].
  2:{ exists [Predict xr]. rewrite <-app_assoc. split; [done|].
      split; [by exists [Predict xe]|done]. }
  destruct (predict xe e2) as [[p2|ex] e3]; cbn [fst snd];
    [destruct (rmse yr p1) as [v1|ex]; [destruct (rmse ye p2) as [v2|ex]|]|];
    cbn [fst snd];
    (exists [Predict xr; Predict xe]; rewrite <-!app_assoc; by repeat split).
Qed.

Lemma score_loop_trace x y trs tes (n i : nat) a b sl :
  length trs = (i + n)%nat → length tes = (i + n)%nat →
  length a = (i + n)%nat → length b = (i + n)%nat →
  Forall (in_range x) trs → Forall (in_range x) tes →
  Forall (in_range y) trs → Forall (in_range y) tes →
  let res := score_loop rmse x y trs tes (Z.of_nat <$> seq i n) (a, b) sl in
  ∃ c, res.2.2.2 = sl.2.2 ++ c ∧
       c `prefix_of` all_calls x y (drop i trs) (drop i tes) ∧
       (∀ v, res.1 = Return v → c = all_calls x y (drop i trs) (drop i tes)) ∧
       (n ≠ 0%nat → c ≠ []).
Proof.
  intros Htrs Htes Ha Hb Hxr Hxe Hyr Hye.
  revert i a b sl Htrs Htes Ha Hb.
  induction n as [|n IH]; intros i a b sl Htrs Htes Ha Hb.
  { exists []. rewrite app_nil_r. split; [done|].
    rewrite !drop_ge by lia. by repeat split. }
  cbn [seq fmap list_fmap score_loop].
  destruct (lookup_lt_is_Some_2 trs i) as [tr Htr]; [lia|].
  destruct (lookup_lt_is_Some_2 tes i) as [te Hte]; [lia|].
  unfold mbind, D_bind.
  pose proof (Forall_lookup_1 _ _ _ _ Hxr Htr).
  pose proof (Forall_lookup_1 _ _ _ _ Hxe Hte).
  pose proof (Forall_lookup_1 _ _ _ _ Hyr Htr).
  pose proof (Forall_lookup_1 _ _ _ _ Hye Hte).
  rewrite (fold_body_in_range (E := E * list call) rmse x y trs tes i tr te)
    by (done || lia).
  rewrite (drop_S trs tr i Htr), (drop_S tes te i Hte).
  unfold all_calls. cbn [zip_with concat]. fold (all_calls x y).
  pose proof (fold_step_outcome (E := E * list call) rmse
                (rows x tr) (rows y tr) (rows x te) (rows y te) i a b sl) as Hout.
  pose proof (fold_step_trace (rows x tr) (rows y tr) (rows x te) (rows y te)
                i a b sl) as (c1 & Hlog & Hpre & Hall).
  cbv zeta in Hout.
  destruct (fold_step _ _ _ _ _ _ _ sl) as [[[a1 b1]|ex] s1]; cbn [fst snd] in *.
  - destruct Hout as (_ & Ha1 & Hb1).
    rewrite (Hall _ eq_refl) in Hlog.
    destruct (IH (S i) a1 b1 s1) as (c2 & Hlog2 & Hpre2 & Hall2 & _); [lia..|].
    exists (fold_calls x y tr te ++ c2). split; [|split; [|split]].
    + rewrite Hlog2, Hlog. by rewrite <-app_assoc.
    + by apply prefix_app.
    + intros v Hv. by rewrite (Hall2 v Hv).
    + done.
  - exists (Fit (rows x tr) (rows y tr) :: c1). split; [done|].
    split; [|by split].
    apply prefix_app_r. unfold fold_calls. by apply prefix_cons.
Qed.

Lemma driver_trace x y k rs h e log g :
  0 < k → rng_state rs h = Some g → (length x ≤ length y)%nat →
  let N := Z.of_nat (length x) in
  let tes := blocks (shuffled g N) 0 (block_sizes N k) in
  let trs := (λ te, setdiff1d (shuffled g N) te) <$> tes in
  let res := train_models_and_calc_scores_for_n_fold_cv rmse x y k rs
               (h, (e, log)) in
  ∃ c, res.2.2.2 = log ++ c ∧
       c `prefix_of` all_calls x y trs tes ∧
       (∀ v, res.1 = Return v → c = all_calls x y trs tes) ∧
       c ≠ [].
Proof.
  intros Hk Hg Hxy N tes trs. cbv zeta.
  rewrite (driver_loop (E := E * list call) rmse x y k rs h (e, log) g Hk Hg).
  cbv zeta. fold N. fold tes. fold trs.
  destruct (folds_in_range g N k) as [Hte Htr]; [lia..|].
  destruct (driver_folds g N k) as [Hltr Hlte]; [lia..|].
  cbv zeta in Hte, Htr, Hltr, Hlte. fold tes in Hte, Htr, Hltr, Hlte.
  fold trs in Htr, Hltr.
  assert (Forall (in_range y) trs) as Hytr.
  { eapply Forall_impl; [exact Htr|]. intros tr Hr. exact (in_range_le x y tr Hxy Hr). }
  assert (Forall (in_range y) tes) as Hyte.
  { eapply Forall_impl; [exact Hte|]. intros te Hr. exact (in_range_le x y te Hxy Hr). }
  destruct (score_loop_trace x y trs tes (Z.to_nat k) 0
    (replicate (Z.to_nat k) (S754_zero false))
    (replicate (Z.to_nat k) (S754_zero false))
    (heap_after rs h g N, (e, log))) as (c & Hlog & Hpre & Hall & Hne);
    rewrite ?length_replicate; try done.
  rewrite !drop_0 in Hpre, Hall.
  exists c. split; [done|]. split; [done|]. split; [done|]. apply Hne. lia.
Qed.

(** X12. With a positive fold count, a usable random state and a target
    for every row, the calls the estimator receives are, in order: for
    each fold [fit] on the train rows, [predict] on the train rows,
    [predict] on the test rows.  A run that returns has made all of them;
    a run that raises has made the first ones of them, at least one. *)
Theorem estimator_calls x y k rs h e log g :
  0 < k → rng_state rs h = Some g → (length x ≤ length y)%nat →
  ∃ trs tes c,
    (make_train_and_test_row_ids_for_n_fold_cv (Z.of_nat (length x)) k rs h).1
    = Ok (trs, tes) ∧
    let res := train_models_and_calc_scores_for_n_fold_cv rmse x y k rs
                 (h, (e, log)) in
    res.2.2.2 = log ++ c ∧
    c `prefix_of` all_calls x y trs tes ∧
    (∀ v, res.1 = Return v → c = all_calls x y trs tes) ∧
    c ≠ [].
Proof.
  intros Hk Hg Hxy.
  destruct (driver_trace x y k rs h e log g Hk Hg Hxy) as (c & Hc).
  rewrite (Splitter.run_ok _ k rs h g) by (done || lia). cbn [fst].
  by eexists _, _, c.
Qed.

(** X13. With a single fold the train set is empty: the first thing the
    driver does with the estimator is to fit it on no rows at all. *)
Theorem single_fold_fits_nothing x y rs h e log g :
  rng_state rs h = Some g → (length x ≤ length y)%nat →
  ∃ c, (train_models_and_calc_scores_for_n_fold_cv rmse x y 1 rs
          (h, (e, log))).2.2.2 = log ++ Fit [] [] :: c.
Proof.
  intros Hg Hxy.
  destruct (driver_trace x y 1 rs h e log g) as (c & Hlog & Hpre & _ & Hne);
    [lia|done|done|].
  cbv zeta in Hlog, Hpre. revert Hpre.
  unfold block_sizes. rewrite Z.mod_1_r, Z.div_1_r. simpl.
  rewrite drop_0, take_ge by (rewrite Splitter.length_shuffled; lia).
  rewrite setdiff1d_self. unfold all_calls, fold_calls, rows; simpl.
  intros [c' Hc']. destruct c as [|c0 c]; [done|].
  injection Hc' as <- _. by exists c.
Qed.

End trace.

Lemma driver_outcome_witness :
  let x := [[1]; [2]; [3]; [4]; [5]]%float in
  let y := [1; 2; 3; 4; 5]%float in
  let res := train_models_and_calc_scores_for_n_fold_cv (G := Z)
               Demo.rmse x y 2 (PyInt 0) (∅, None) in
  res.2.1 = (make_train_and_test_row_ids_for_n_fold_cv 5 2 (PyInt 0) ∅).2 ∧
  match res.1 with
  | Return (train_error_per_fold, test_error_per_fold) =>
      length train_error_per_fold = 2%nat ∧ length test_error_per_fold = 2%nat
  | Throw ex => raised_by_callback Demo.rmse ex
  end.
Proof.
  apply (driver_outcome (G := Z) Demo.rmse
           [[1]; [2]; [3]; [4]; [5]]%float [1; 2; 3; 4; 5]%float
           2 (PyInt 0) ∅ None 0); [lia | reflexivity | simpl; lia].
Defined.

Lemma errors_per_fold_witness :
  let x := [[1]; [2]; [3]; [4]; [5]]%float in
  let y := [1; 2; 3; 4; 5]%float in
  ∃ trs tes,
    (make_train_and_test_row_ids_for_n_fold_cv (G := Z) 5 2 (PyInt 0) ∅).1
    = Ok (trs, tes) ∧
    match (train_models_and_calc_scores_for_n_fold_cv (G := Z) Demo.rmse
             x y 2 (PyInt 0) (∅, None)).1 with
    | Return (train_error_per_fold, test_error_per_fold) =>
        (∀ f ids, trs !! f = Some ids →
           ∃ v, train_error_per_fold !! f = Some v ∧
                error_entry Demo.rmse x y ids v) ∧
        (∀ f ids, tes !! f = Some ids →
           ∃ v, test_error_per_fold !! f = Some v ∧
                error_entry Demo.rmse x y ids v)
    | Throw _ => True
    end.
Proof.
  apply (errors_per_fold (G := Z) Demo.rmse
           [[1]; [2]; [3]; [4]; [5]]%float [1; 2; 3; 4; 5]%float
           2 (PyInt 0) ∅ None 0); [lia | reflexivity | simpl; lia].
Defined.

Lemma short_targets_raise_witness :
  train_models_and_calc_scores_for_n_fold_cv (G := Z) Demo.rmse
    [[1]; [2]; [3]]%float [1; 2]%float 2 (PyRef 1) ({[ 1%positive := 7 ]}, None)
  = (Throw IndexError,
     ((make_train_and_test_row_ids_for_n_fold_cv 3 2 (PyRef 1)
         {[ 1%positive := 7 ]}).2, None)).
Proof.
  apply (short_targets_raise (G := Z) Demo.rmse
           [[1]; [2]; [3]]%float [1; 2]%float 2 (PyRef 1)
           {[ 1%positive := 7 ]} None 7); [lia | reflexivity | simpl; lia].
Defined.

Lemma negative_folds_rejected_witness :
  train_models_and_calc_scores_for_n_fold_cv (G := Z) Demo.rmse
    [[1]; [2]]%float [1; 2]%float (-1) (PyRef 1) ({[ 1%positive := 7 ]}, None)
  = (Throw (Builtin ValueError), ({[ 1%positive := 7 ]}, None)).
Proof.
  apply (negative_folds_rejected (G := Z) Demo.rmse
           [[1]; [2]]%float [1; 2]%float (-1) (PyRef 1)
           ({[ 1%positive := 7 ]}, None)); lia.
Defined.

Lemma splitter_exception_passes_witness :
  train_models_and_calc_scores_for_n_fold_cv (G := Z) Demo.rmse
    [[1]; [2]]%float [1; 2]%float 0 (PyInt 0) (∅, None)
  = (Throw (Builtin ZeroDivisionError),
     ((make_train_and_test_row_ids_for_n_fold_cv 2 0 (PyInt 0) ∅).2, None)).
Proof.
  apply (splitter_exception_passes (G := Z) Demo.rmse
           [[1]; [2]]%float [1; 2]%float 0 (PyInt 0) ∅ None ZeroDivisionError);
    [lia | reflexivity].
Defined.

Lemma estimator_calls_witness :
  let x := [[1]; [2]; [3]; [4]; [5]]%float in
  let y := [1; 2; 3; 4; 5]%float in
  ∃ trs tes c,
    (make_train_and_test_row_ids_for_n_fold_cv (G := Z) 5 2 (PyInt 0) ∅).1
    = Ok (trs, tes) ∧
    let res := train_models_and_calc_scores_for_n_fold_cv (G := Z)
                 Demo.rmse x y 2 (PyInt 0) (∅, (None, [])) in
    res.2.2.2 = [] ++ c ∧
    c `prefix_of` all_calls x y trs tes ∧
    (∀ v, res.1 = Return v → c = all_calls x y trs tes) ∧
    c ≠ [].
Proof.
  apply (estimator_calls (G := Z) (E := option float) Demo.rmse
           [[1]; [2]; [3]; [4]; [5]]%float [1; 2; 3; 4; 5]%float
           2 (PyInt 0) ∅ None [] 0); [lia | reflexivity | simpl; lia].
Defined.

Lemma single_fold_fits_nothing_witness :
  ∃ c, (train_models_and_calc_scores_for_n_fold_cv (G := Z) Demo.rmse
          [[1]; [2]; [3]]%float [1; 2; 3]%float 1 (PyInt 0)
          (∅, (None, []))).2.2.2 = [] ++ Fit [] [] :: c.
Proof.
  apply (single_fold_fits_nothing (G := Z) (E := option float) Demo.rmse
           [[1]; [2]; [3]]%float [1; 2; 3]%float (PyInt 0) ∅ None [] 0);
    [reflexivity | simpl; lia].
Defined.

End DriverFacts.

(** ** The metrics: symmetries and exact values *)

Module MetricsFacts.
Import BinaryMetrics Binary64.

Lemma and_comm a b : and_ a b = and_ b a.
Proof.
  unfold and_. revert b. induction a as [|v a IH]; intros [|w b]; simpl; [done..|].
  by rewrite Z.land_comm, IH.
Qed.

(** Exchanging the two arguments exchanges FP and FN. *)
Lemma confusion_swap ytrue yhat :
  calc_TP_TN_FP_FN yhat ytrue
  = match calc_TP_TN_FP_FN ytrue yhat with
    | Ok (TP, TN, FP, FN) => Ok (TP, TN, FN, FP)
    | Raise e => Raise e
    end.
Proof.
  unfold calc_TP_TN_FP_FN, asarray_int32.
  destruct (decide (Forall int32 ytrue)), (decide (Forall int32 yhat));
    cbn [mbind result_bind]; [|done..].
  cbv zeta. destruct (decide (length ytrue = length yhat)) as [Hlen|Hlen].
  - rewrite decide_True by done.
    by rewrite (and_comm yhat), (and_comm (one_minus yhat)),
      (and_comm (one_minus yhat) ytrue), (and_comm yhat (one_minus ytrue)).
  - by rewrite decide_False by done.
Qed.

Lemma binary_flip y : Forall binary y → Forall binary ((λ v, 1 - v) <$> y).
Proof.
  intros Hy. apply Forall_fmap. eapply Forall_impl; [exact Hy|].
  intros v [-> | ->]; [by right|by left].
Qed.

Lemma count_pairs_flip t p ytrue yhat :
  length ytrue = length yhat →
  count_pairs t p ((λ v, 1 - v) <$> ytrue) ((λ v, 1 - v) <$> yhat)
  = count_pairs (1 - t) (1 - p) ytrue yhat.
Proof.
  revert yhat. induction ytrue as [|v ytrue IH]; intros [|w yhat] Hlen;
    simplify_eq/=; [done|].
  rewrite !Confusion.count_pairs_cons, IH by done.
  destruct (decide ((1 - v, 1 - w) = (t, p))) as [E1|E1],
    (decide ((v, w) = (1 - t, 1 - p))) as [E2|E2]; try done; exfalso.
  - injection E1 as <- <-. apply E2. f_equal; lia.
  - injection E2 as -> ->. apply E1. f_equal; lia.
Qed.

Lemma confusion_binary ytrue yhat :
  length ytrue = length yhat → Forall binary ytrue → Forall binary yhat →
  calc_TP_TN_FP_FN ytrue yhat
  = Ok (count_pairs 1 1 ytrue yhat, count_pairs 0 0 ytrue yhat,
        count_pairs 0 1 ytrue yhat, count_pairs 1 0 ytrue yhat).
Proof.
  intros Hlen Ht Hp. unfold calc_TP_TN_FP_FN.
  rewrite !Confusion.asarray_int32_binary by done. cbn [mbind result_bind].
  rewrite decide_True by done.
  by destruct (Confusion.sums_count ytrue yhat Ht Hp Hlen) as (-> & -> & -> & ->).
Qed.

Lemma count_errors_zero ytrue yhat :
  length ytrue = length yhat → Forall binary ytrue → Forall binary yhat →
  count_pairs 0 1 ytrue yhat = 0 ∧ count_pairs 1 0 ytrue yhat = 0 ↔ ytrue = yhat.
Proof.
  intros Hlen Ht. revert yhat Hlen.
  induction Ht as [|v ytrue Hv _ IH]; intros [|w yhat] Hlen Hp;
    simplify_eq/=; [done|].
  apply Forall_cons in Hp as [Hw Hp]. specialize (IH yhat ltac:(done) Hp).
  rewrite !Confusion.count_pairs_cons.
  pose proof (Confusion.count_pairs_nonneg 0 1 ytrue yhat).
  pose proof (Confusion.count_pairs_nonneg 1 0 ytrue yhat).
  split.
  - intros [H1 H2].
    destruct Hv as [-> | ->], Hw as [-> | ->];
      repeat case_decide; simplify_eq; try lia; f_equal; apply IH; lia.
  - intros [= -> Heq]. apply IH in Heq as [-> ->].
    destruct Hw as [-> | ->]; repeat case_decide; simplify_eq; lia.
Qed.

(** With a zero numerator the ratio is exactly zero. *)
Lemma zero_ratio s :
  0 ≤ s → s < 2 ^ 63 → (to_float 0 / (to_float s + eps))%float = 0%float.
Proof.
  intros Hs0 Hs.
  destruct (decide (s = 0)) as [->|Hne]; [by vm_compute|].
  destruct (Rounding.int_float_mono s s)
    as (ms0 & es0 & ms & es & _ & Hfs & Hle0 & Hes1 & Hes2); [lia..|].
  assert (-52 ≤ es) as Hes3 by (unfold lex_le in Hle0; lia).
  destruct (Rounding.add_eps ms es) as (md & ed & Hfd & Hsd & Hed);
    [apply Hfs|lia..|].
  assert (Prim2SF (to_float s + eps) = S754_finite false (Z.to_pos md) ed) as Hd.
  { unfold to_float. rewrite add_spec.
    rewrite Prim2SF_SF2Prim by (eapply Rounding.is_float_valid; [done|lia..]).
    destruct Hfs as [-> _]. apply Hfd. }
  rewrite <-(SF2Prim_Prim2SF (to_float 0 / (to_float s + eps))).
  rewrite div_spec, Hd. by vm_compute.
Qed.

(** X14. Recall is precision with the roles of the two arrays exchanged:
    [calc_TPR(ytrue, yhat)] and [calc_PPV(yhat, ytrue)] are the same
    computation, for all inputs. *)
Theorem recall_is_swapped_precision ytrue yhat :
  calc_TPR ytrue yhat = calc_PPV yhat ytrue.
Proof.
  unfold calc_TPR, calc_PPV. rewrite (confusion_swap ytrue yhat).
  by destruct (calc_TP_TN_FP_FN ytrue yhat) as [[[[TP TN] FP] FN]|].
Qed.

(** X15. Accuracy does not tell its arguments apart. *)
Theorem accuracy_symmetric ytrue yhat :
  calc_ACC ytrue yhat = calc_ACC yhat ytrue.
Proof.
  unfold calc_ACC. rewrite (confusion_swap ytrue yhat).
  destruct (calc_TP_TN_FP_FN ytrue yhat) as [[[[TP TN] FP] FN]|]; [|done].
  simpl. by replace (TP + TN + FN + FP) with (TP + TN + FP + FN) by lia.
Qed.

(** X16. Renaming the classes (every label [y] replaced by [1 - y] in both
    arrays) exchanges TP with TN and FP with FN, and keeps the accuracy. *)
Theorem label_flip ytrue yhat :
  length ytrue = length yhat → Forall binary ytrue → Forall binary yhat →
  let flip := fmap (λ v, 1 - v) in
  ∃ TP TN FP FN,
    calc_TP_TN_FP_FN ytrue yhat = Ok (TP, TN, FP, FN) ∧
    calc_TP_TN_FP_FN (flip ytrue) (flip yhat) = Ok (TN, TP, FN, FP) ∧
    calc_ACC (flip ytrue) (flip yhat) = calc_ACC ytrue yhat.
Proof.
  intros Hlen Ht Hp flip.
  pose proof (confusion_binary ytrue yhat Hlen Ht Hp) as Hc.
  assert (calc_TP_TN_FP_FN (flip ytrue) (flip yhat)
          = Ok (count_pairs 0 0 ytrue yhat, count_pairs 1 1 ytrue yhat,
                count_pairs 1 0 ytrue yhat, count_pairs 0 1 ytrue yhat)) as Hf.
  { unfold flip. rewrite confusion_binary
      by (rewrite ?length_fmap; done || by apply binary_flip).
    by rewrite !count_pairs_flip by done. }
  do 4 eexists. split; [exact Hc|]. split; [exact Hf|].
  unfold calc_ACC. rewrite Hc, Hf. simpl.
  set (TP := count_pairs 1 1 ytrue yhat). set (TN := count_pairs 0 0 ytrue yhat).
  set (FP := count_pairs 0 1 ytrue yhat). set (FN := count_pairs 1 0 ytrue yhat).
  by replace (TN + TP + FN + FP) with (TP + TN + FP + FN) by lia;
    replace (TN + TP) with (TP + TN) by lia.
Qed.

(** X17. Without a true positive, recall and precision are exactly 0.0;
    this includes the inputs with no positive label, or no positive
    prediction, at all, where the count in the denominator is zero. *)
Theorem no_true_positive ytrue yhat :
  length ytrue = length yhat → Forall binary ytrue → Forall binary yhat →
  Z.of_nat (length ytrue) < 2 ^ 63 →
  count_pairs 1 1 ytrue yhat = 0 →
  calc_TPR ytrue yhat = Ok 0%float ∧ calc_PPV ytrue yhat = Ok 0%float.
Proof.
  intros Hlen Ht Hp Hbound HTP.
  pose proof (confusion_binary ytrue yhat Hlen Ht Hp) as Hc.
  pose proof (Confusion.count_pairs_total ytrue yhat Ht Hp Hlen) as Htotal.
  pose proof (Confusion.count_pairs_nonneg 0 0 ytrue yhat).
  pose proof (Confusion.count_pairs_nonneg 0 1 ytrue yhat).
  pose proof (Confusion.count_pairs_nonneg 1 0 ytrue yhat).
  rewrite HTP in Hc, Htotal.
  unfold calc_TPR, calc_PPV. rewrite Hc. cbn [mbind result_bind].
  destruct (Confusion.count_ratio 0 (0 + count_pairs 1 0 ytrue yhat))
    as [-> _]; [lia..|].
  destruct (Confusion.count_ratio 0 (0 + count_pairs 0 1 ytrue yhat))
    as [-> _]; [lia..|].
  by rewrite !zero_ratio by lia.
Qed.

(** X18. The counts of errors (FP and FN) are both zero exactly when the
    predictions equal the labels. *)
Theorem no_errors_iff_equal ytrue yhat :
  length ytrue = length yhat → Forall binary ytrue → Forall binary yhat →
  ∃ TP TN FP FN,
    calc_TP_TN_FP_FN ytrue yhat = Ok (TP, TN, FP, FN) ∧
    (FP = 0 ∧ FN = 0 ↔ ytrue = yhat).
Proof.
  intros Hlen Ht Hp. do 4 eexists.
  split; [by apply confusion_binary|]. by apply count_errors_zero.
Qed.


Ltac binary_labels :=
  repeat (constructor; [unfold binary; lia|]); constructor.

Lemma label_flip_witness :
  let flip := fmap (λ v, 1 - v) in
  ∃ TP TN FP FN,
    calc_TP_TN_FP_FN [0; 0; 1; 1; 1] [0; 1; 1; 0; 1] = Ok (TP, TN, FP, FN) ∧
    calc_TP_TN_FP_FN (flip [0; 0; 1; 1; 1]) (flip [0; 1; 1; 0; 1])
    = Ok (TN, TP, FN, FP) ∧
    calc_ACC (flip [0; 0; 1; 1; 1]) (flip [0; 1; 1; 0; 1])
    = calc_ACC [0; 0; 1; 1; 1] [0; 1; 1; 0; 1].
Proof.
  apply (label_flip [0; 0; 1; 1; 1] [0; 1; 1; 0; 1]);
    [reflexivity | |]; binary_labels.
Defined.

Lemma no_true_positive_witness :
  calc_TPR [0; 0; 1] [1; 0; 0] = Ok 0%float ∧
  calc_PPV [0; 0; 1] [1; 0; 0] = Ok 0%float.
Proof.
  apply (no_true_positive [0; 0; 1] [1; 0; 0]);
    [reflexivity | | | vm_compute; reflexivity | reflexivity]; binary_labels.
Defined.

Lemma no_errors_iff_equal_witness :
  ∃ TP TN FP FN,
    calc_TP_TN_FP_FN [0; 1; 1] [0; 1; 0] = Ok (TP, TN, FP, FN) ∧
    (FP = 0 ∧ FN = 0 ↔ [0; 1; 1] = [0; 1; 0]).
Proof.
  apply (no_errors_iff_equal [0; 1; 1] [0; 1; 0]); [reflexivity | |];
    binary_labels.
Defined.


End MetricsFacts.
